(** * mflinger client (mclient.c): capture and resync engine

    A shallow embedding of [src/mclient/mclient.c] and the properties of
    its frame copy, its resolution negotiation, its shared-memory
    lifecycle and its main loop. *)

From Stdlib Require Import ZArith Lia List.
From Stdlib.Strings Require Import Byte.
From stdpp Require Import base numbers option list gmap.

Local Open Scope Z_scope.

(** ** C integer arithmetic *)

(** Conversion to [uint32_t]: every [uint32_t] result wraps modulo 2^32. *)
Definition u32 (z : Z) : Z := z mod 2 ^ 32.

(** [int / int] truncates towards zero. *)
Definition c_div (a b : Z) : Z := Z.quot a b.

(** ** Data *)

(** Xlib's [XImage], the fields the client reads.  [data] is the address
    the pixel rows start at. *)
Record XImage := mkXImage {
  ximg_width : Z;
  ximg_height : Z;
  bits_per_pixel : Z;
  bytes_per_line : Z;
  data : Z
}.

(** Modelled from the spec: the declaration of [MBuffer] (mlib.h) is not
    part of the sources; the spec gives the destination buffer a width, a
    height, a stride and raw byte storage.  [stride] counts pixels of four
    bytes (the code multiplies it by 4), [bits] is the byte storage that
    [buf->bits] points to. *)
Record MBuffer := mkMBuffer {
  buf_width : Z;
  buf_height : Z;
  stride : Z;
  bits : list byte
}.

(** ** Row copy *)

(** [n] bytes of [l] from offset [off]. *)
Definition bytes_at (l : list byte) (off n : Z) : list byte :=
  take (Z.to_nat n) (drop (Z.to_nat off) l).

(** [memcpy(dst + doff, src + soff, n)] on two disjoint objects.  A copy
    that leaves either object is undefined in C: [None]. *)
Definition memcpy (dst : list byte) (doff : Z) (src : list byte) (soff n : Z)
  : option (list byte) :=
  if bool_decide (0 <= doff /\ 0 <= soff /\ 0 <= n /\
                  doff + n <= Z.of_nat (length dst) /\
                  soff + n <= Z.of_nat (length src))
  then Some (take (Z.to_nat doff) dst ++ bytes_at src soff n
             ++ drop (Z.to_nat (doff + n)) dst)
  else None.

Section copy_rows.
Variable buf : MBuffer.
Variable ximg : XImage.
(** the bytes at [ximg->data] *)
Variable src : list byte.

Definition buf_bytes_per_line : Z := u32 (stride buf * 4).
Definition ximg_bytes_per_pixel : Z := u32 (c_div (bits_per_pixel ximg) 8).

(** The body of the loop for row [y]. *)
Definition copy_row (y : Z) (dst : list byte) : option (list byte) :=
  let buf_row := u32 (y * buf_bytes_per_line) in
  let ximg_row := u32 (y * u32 (bytes_per_line ximg)) in
  memcpy dst buf_row src ximg_row (u32 (ximg_width ximg * ximg_bytes_per_pixel)).

(** [for (y = row_start; y < row_end; ++y)] over its rows in order. *)
Fixpoint copy_rows_from (rows : list Z) (dst : list byte) : option (list byte) :=
  match rows with
  | [] => Some dst
  | y :: rows' => dst' ← copy_row y dst; copy_rows_from rows' dst'
  end.
End copy_rows.

(** The rows [row_start], ..., [row_end - 1] the loop visits; none when
    [row_end <= row_start].  Both bounds are [uint32_t], so [++y] does not
    wrap before [y < row_end] fails. *)
Definition row_range (row_start row_end : Z) : list Z :=
  seqZ row_start (row_end - row_start).

(** Returns the code's return value and the buffer with its storage
    updated. *)
Definition copy_ximg_rows_to_buffer_mlocked (buf : MBuffer) (ximg : XImage)
    (src : list byte) (row_start row_end : Z) : option (Z * MBuffer) :=
  dst' ← copy_rows_from buf ximg src (row_range row_start row_end) (bits buf);
  Some (0, mkMBuffer (buf_width buf) (buf_height buf) (stride buf) dst').

Definition copy_ximg_to_buffer_mlocked (buf : MBuffer) (ximg : XImage)
    (src : list byte) : option (Z * MBuffer) :=
  copy_ximg_rows_to_buffer_mlocked buf ximg src 0 (u32 (ximg_height ximg)).

(** ** The display server, the destination subsystem and the kernel

    Everything the client calls outside its own file.  A run is decided by
    the answers these calls give; [Env] fixes the answers, [World] is the
    state they act on, and [trace] records the calls in program order. *)

Inductive Op :=
  | OpXInitThreads | OpXOpenDisplay | OpXShmQueryExtension
  | OpXDamageQueryExtension | OpXRRQueryExtension | OpMOpenDisplay
  | OpXSetErrorHandler | OpXRRSelectInput | OpMCreateBuffer | OpMcursorInit
  | OpXDamageCreate | OpXNextEvent | OpXDamageSubtract | OpMcursorOnEvent
  | OpXDamageDestroy | OpCursorCacheFree | OpMCloseDisplay | OpXCloseDisplay
  | OpMGetDisplayInfo | OpXCheckIfEvent | OpXRRUpdateConfiguration
  | OpXGrabServer | OpXUngrabServer
  | OpXDisplayWidth | OpXDisplayHeight | OpXDisplayHeightMM
  | OpXRRGetScreenResources | OpXRRFreeScreenResources | OpXRRGetCrtcInfo
  | OpXRRSetCrtcConfig | OpXRRSetScreenSize | OpXIfEvent
  | OpMLockBuffer | OpMUnlockBuffer | OpXShmGetImage | OpMResizeBuffer
  | OpXShmCreateImage | OpShmget | OpShmat | OpXShmAttach | OpXShmDetach
  | OpXDestroyImage | OpShmdt | OpShmctlRmid.

Global Instance Op_eq_dec : EqDecision Op.
Proof. solve_decision. Defined.

(** An X event: its type code and, for a screen-change notification, the
    geometry it reports ([XRRScreenChangeNotifyEvent]). *)
Record XEvent := mkXEvent {
  ev_type : Z;
  ev_width : Z;
  ev_height : Z;
  ev_mwidth : Z;
  ev_mheight : Z
}.

Definition RRScreenChangeNotify : Z := 0.
Definition XDamageNotify : Z := 0.

Record XRRModeInfo := mkXRRModeInfo {
  mode_id : Z;
  mode_width : Z;
  mode_height : Z
}.

(** [nmode] is the length of [modes], [ncrtc] the length of [crtcs]. *)
Record XRRScreenResources := mkXRRScreenResources {
  modes : list XRRModeInfo;
  crtcs : list Z
}.

(** Modelled from the spec: [MDisplayInfo] (mlib.h) is not part of the
    sources; the spec calls it the destination subsystem's desired
    geometry, a width and a height. *)
Record MDisplayInfo := mkMDisplayInfo {
  dinfo_width : Z;
  dinfo_height : Z
}.

Record XShmSegmentInfo := mkXShmSegmentInfo {
  shmid : Z;
  shmaddr : Z;
  readOnly : bool
}.

(** Screen geometry: pixels and millimetres. *)
Record Geometry := mkGeometry {
  g_width : Z;
  g_height : Z;
  g_mwidth : Z;
  g_mheight : Z
}.

Record World := mkWorld {
  (** Xlib's local screen configuration, read by [XDisplayWidth] and
      friends and refreshed by [XRRUpdateConfiguration] *)
  disp : Geometry;
  (** the server's screen size and the mode of its first crtc *)
  srv : Geometry;
  srv_mode : Z;
  (** the server grab of this client *)
  grabbed : bool;
  (** events already in Xlib's queue, and events still to arrive (those
      the server sends in answer to this client's requests included) *)
  queue : list XEvent;
  later : list XEvent;
  (** live [XImage] structures by address *)
  images : gmap nat XImage;
  next_image : nat;
  (** System V segments by id (with their size), the mappings of this
      process by address (with their contents), and the segments the
      server has attached *)
  segments : gmap Z Z;
  next_shmid : Z;
  mappings : gmap Z (list byte);
  next_addr : Z;
  x_attached : gset Z;
  (** the calls made so far *)
  trace : list Op
}.

Record Env := mkEnv {
  (** whether the n-th call of an operation fails *)
  env_fails : Op -> nat -> bool;
  (** what the n-th [MGetDisplayInfo] reports when it succeeds *)
  env_dinfo : nat -> MDisplayInfo;
  (** what the n-th [XRRGetScreenResources] returns *)
  env_resources : nat -> option XRRScreenResources;
  (** how many of the events still to arrive have reached the connection
      when the n-th [XCheckIfEvent] looks *)
  env_arrived : nat -> nat;
  (** where the allocator puts the n-th [XImage]: a free address, which
      may be one a destroyed image had *)
  env_image_addr : nat -> nat;
  (** the pixmap format of the default depth *)
  env_bits_per_pixel : Z;
  env_scanline_pad : Z;
  (** the frame the server writes on the n-th [XShmGetImage] *)
  env_frame : nat -> list byte;
  (** the stride (in pixels) the destination subsystem gives a buffer of
      a given width *)
  env_stride : Z -> Z;
  (** event base codes of the damage and randr extensions *)
  env_xdamage_event_base : Z;
  env_xrandr_event_base : Z;
  (** [(25.4 * px) / ((25.4 * height) / height_mm)] in double precision,
      truncated to [int]: arguments are height, height_mm and px *)
  env_mm : Z -> Z -> Z -> Z
}.

(** *** Outcomes *)

(** A call sequence returns, blocks for ever in a wait no event ends,
    dies on an invalid access, or (in [event_loop] only) runs out of the
    iterations it was given. *)
Inductive outcome (A : Type) :=
  | Ret (a : A) (w : World)
  | Blocks (w : World)
  | Crash (w : World)
  | Fuel (w : World).
Arguments Ret {A} a w.
Arguments Blocks {A} w.
Arguments Crash {A} w.
Arguments Fuel {A} w.

Definition M (A : Type) : Type := World -> outcome A.

Definition ret {A} (a : A) : M A := fun w => Ret a w.

Definition bind {A B} (m : M A) (k : A -> M B) : M B :=
  fun w =>
    match m w with
    | Ret a w' => k a w'
    | Blocks w' => Blocks w'
    | Crash w' => Crash w'
    | Fuel w' => Fuel w'
    end.

Definition crash {A} : M A := fun w => Crash w.

Declare Scope prog_scope.
Delimit Scope prog_scope with prog.
Notation "'let*' x ':=' c 'in' k" := (bind c (fun x => k))
  (at level 10, x name, c at level 100, k at level 200) : prog_scope.
Notation "'let*' ' p ':=' c 'in' k" := (bind c (fun x => match x with p => k end))
  (at level 10, p pattern, c at level 100, k at level 200) : prog_scope.
Local Open Scope prog_scope.

(** The world an outcome ends in. *)
Definition world_of {A} (o : outcome A) : World :=
  match o with Ret _ w | Blocks w | Crash w | Fuel w => w end.

(** *** World updates *)

Definition set_disp (g : Geometry) (w : World) : World :=
  mkWorld g (srv w) (srv_mode w) (grabbed w) (queue w) (later w) (images w)
    (next_image w) (segments w) (next_shmid w) (mappings w) (next_addr w)
    (x_attached w) (trace w).
Definition set_srv (g : Geometry) (w : World) : World :=
  mkWorld (disp w) g (srv_mode w) (grabbed w) (queue w) (later w) (images w)
    (next_image w) (segments w) (next_shmid w) (mappings w) (next_addr w)
    (x_attached w) (trace w).
Definition set_srv_mode (m : Z) (w : World) : World :=
  mkWorld (disp w) (srv w) m (grabbed w) (queue w) (later w) (images w)
    (next_image w) (segments w) (next_shmid w) (mappings w) (next_addr w)
    (x_attached w) (trace w).
Definition set_grabbed (b : bool) (w : World) : World :=
  mkWorld (disp w) (srv w) (srv_mode w) b (queue w) (later w) (images w)
    (next_image w) (segments w) (next_shmid w) (mappings w) (next_addr w)
    (x_attached w) (trace w).
Definition set_events (q l : list XEvent) (w : World) : World :=
  mkWorld (disp w) (srv w) (srv_mode w) (grabbed w) q l (images w)
    (next_image w) (segments w) (next_shmid w) (mappings w) (next_addr w)
    (x_attached w) (trace w).
Definition set_images (im : gmap nat XImage) (n : nat) (w : World) : World :=
  mkWorld (disp w) (srv w) (srv_mode w) (grabbed w) (queue w) (later w) im
    n (segments w) (next_shmid w) (mappings w) (next_addr w)
    (x_attached w) (trace w).
Definition set_segments (s : gmap Z Z) (n : Z) (w : World) : World :=
  mkWorld (disp w) (srv w) (srv_mode w) (grabbed w) (queue w) (later w)
    (images w) (next_image w) s n (mappings w) (next_addr w)
    (x_attached w) (trace w).
Definition set_mappings (m : gmap Z (list byte)) (n : Z) (w : World) : World :=
  mkWorld (disp w) (srv w) (srv_mode w) (grabbed w) (queue w) (later w)
    (images w) (next_image w) (segments w) (next_shmid w) m n
    (x_attached w) (trace w).
Definition set_x_attached (s : gset Z) (w : World) : World :=
  mkWorld (disp w) (srv w) (srv_mode w) (grabbed w) (queue w) (later w)
    (images w) (next_image w) (segments w) (next_shmid w) (mappings w)
    (next_addr w) s (trace w).
Definition log (op : Op) (w : World) : World :=
  mkWorld (disp w) (srv w) (srv_mode w) (grabbed w) (queue w) (later w)
    (images w) (next_image w) (segments w) (next_shmid w) (mappings w)
    (next_addr w) (x_attached w) (trace w ++ [op]).

(** How often [op] has been called. *)
Definition calls (op : Op) (w : World) : nat := count_occ Op_eq_dec (trace w) op.
Arguments calls : simpl never.

Section program.
Variable env : Env.

(** *** Calls *)

(** Make the call [op]; [true] when it succeeds. *)
Definition invoke (op : Op) : M bool :=
  fun w => Ret (negb (env_fails env op (calls op w))) (log op w).

Definition XDisplayWidth : M Z :=
  fun w => Ret (g_width (disp w)) (log OpXDisplayWidth w).
Definition XDisplayHeight : M Z :=
  fun w => Ret (g_height (disp w)) (log OpXDisplayHeight w).
Definition XDisplayHeightMM : M Z :=
  fun w => Ret (g_mheight (disp w)) (log OpXDisplayHeightMM w).

Definition MGetDisplayInfo : M (option MDisplayInfo) :=
  fun w =>
    let n := calls OpMGetDisplayInfo w in
    Ret (if env_fails env OpMGetDisplayInfo n then None else Some (env_dinfo env n))
        (log OpMGetDisplayInfo w).

(** The first event of [q] that satisfies [p], and [q] without it. *)
Fixpoint take_event (p : XEvent -> bool) (q : list XEvent)
  : option (XEvent * list XEvent) :=
  match q with
  | [] => None
  | ev :: q' =>
      if p ev then Some (ev, q')
      else match take_event p q' with
           | Some (ev', q'') => Some (ev', ev :: q'')
           | None => None
           end
  end.

(** Does not wait: looks at the queue and at what has reached the
    connection by now. *)
Definition XCheckIfEvent (p : XEvent -> bool) : M (option XEvent) :=
  fun w =>
    let n := env_arrived env (calls OpXCheckIfEvent w) in
    let q := queue w ++ take n (later w) in
    match take_event p q with
    | Some (ev, q') => Ret (Some ev) (set_events q' (drop n (later w)) (log OpXCheckIfEvent w))
    | None => Ret None (set_events q (drop n (later w)) (log OpXCheckIfEvent w))
    end.

(** The events of [l] that arrive before the first one satisfying [p],
    that event, and the events after it. *)
Fixpoint wait_event (p : XEvent -> bool) (l : list XEvent)
  : option (list XEvent * XEvent * list XEvent) :=
  match l with
  | [] => None
  | ev :: l' =>
      if p ev then Some ([], ev, l')
      else match wait_event p l' with
           | Some (skipped, ev', rest) => Some (ev :: skipped, ev', rest)
           | None => None
           end
  end.

(** Waits until an event satisfies [p]; events that do not are left in
    the queue.  With no such event among those still to arrive the call
    never returns. *)
Definition XIfEvent (p : XEvent -> bool) : M XEvent :=
  fun w =>
    match take_event p (queue w) with
    | Some (ev, q') => Ret ev (set_events q' (later w) (log OpXIfEvent w))
    | None =>
        match wait_event p (later w) with
        | Some (skipped, ev, rest) =>
            Ret ev (set_events (queue w ++ skipped) rest (log OpXIfEvent w))
        | None => Blocks (set_events (queue w ++ later w) [] (log OpXIfEvent w))
        end
    end.

(** Waits for the next event. *)
Definition XNextEvent : M XEvent :=
  fun w =>
    match queue w, later w with
    | ev :: q, l => Ret ev (set_events q l (log OpXNextEvent w))
    | [], ev :: l => Ret ev (set_events [] l (log OpXNextEvent w))
    | [], [] => Blocks (log OpXNextEvent w)
    end.

(** Brings Xlib's screen configuration up to date with a screen-change
    notification; 0 when Xlib cannot place the event. *)
Definition XRRUpdateConfiguration (ev : XEvent) : M Z :=
  let* ok := invoke OpXRRUpdateConfiguration in
  if ok : bool then
    fun w => Ret 1 (set_disp (mkGeometry (ev_width ev) (ev_height ev)
                               (ev_mwidth ev) (ev_mheight ev)) w)
  else ret 0.

Definition XGrabServer : M unit :=
  fun w => Ret tt (set_grabbed true (log OpXGrabServer w)).
Definition XUngrabServer : M unit :=
  fun w => Ret tt (set_grabbed false (log OpXUngrabServer w)).

Definition XRRGetScreenResources : M (option XRRScreenResources) :=
  fun w => Ret (env_resources env (calls OpXRRGetScreenResources w))
               (log OpXRRGetScreenResources w).
Definition XRRFreeScreenResources (screenr : option XRRScreenResources) : M unit :=
  fun w => Ret tt (log OpXRRFreeScreenResources w).

(** [NULL] ([false]) when the server does not know the crtc. *)
Definition XRRGetCrtcInfo (crtc : Z) : M bool := invoke OpXRRGetCrtcInfo.

(** [true] for [RRSetConfigSuccess]. *)
Definition XRRSetCrtcConfig (crtc mode : Z) : M bool :=
  let* ok := invoke OpXRRSetCrtcConfig in
  if ok : bool then fun w => Ret true (set_srv_mode mode w) else ret false.

Definition XRRSetScreenSize (width height mwidth mheight : Z) : M unit :=
  fun w => Ret tt (set_srv (mkGeometry width height mwidth mheight)
                     (log OpXRRSetScreenSize w)).

(** *** Shared memory and images *)

(** [(void * ) -1], what [shmat] returns on failure. *)
Definition MAP_FAILED : Z := 2 ^ 64 - 1.

(** Read through an [XImage] pointer; invalid once the image is
    destroyed. *)
Definition deref (ximg : nat) : M XImage :=
  fun w => match images w !! ximg with
           | Some img => Ret img w
           | None => Crash w
           end.

(** Xlib's scanline size: the row's bits rounded up to the pad. *)
Definition scanline_bytes (bpp pad width : Z) : Z :=
  ((bpp * width + pad - 1) / pad * pad) / 8.

(** Allocates the [XImage] structure only; [NULL] on failure. *)
Definition XShmCreateImage (width height : Z) : M (option nat) :=
  fun w =>
    let n := calls OpXShmCreateImage w in
    if env_fails env OpXShmCreateImage n then Ret None (log OpXShmCreateImage w)
    else
      let a := match images w !! env_image_addr env n with
               | Some _ => next_image w
               | None => env_image_addr env n
               end in
      let img := mkXImage width height (env_bits_per_pixel env)
                   (scanline_bytes (env_bits_per_pixel env)
                      (env_scanline_pad env) width) 0 in
      Ret (Some a) (set_images (<[a := img]> (images w))
                      (Nat.max (next_image w) (S a)) (log OpXShmCreateImage w)).

(** [ximg->data = addr] *)
Definition set_image_data (ximg : nat) (addr : Z) : M unit :=
  fun w => match images w !! ximg with
           | Some img =>
               Ret tt (set_images
                         (<[ximg := mkXImage (ximg_width img) (ximg_height img)
                                      (bits_per_pixel img) (bytes_per_line img) addr]>
                            (images w))
                         (next_image w) w)
           | None => Crash w
           end.

Definition XDestroyImage (ximg : nat) : M unit :=
  fun w => match images w !! ximg with
           | Some _ => Ret tt (set_images (delete ximg (images w)) (next_image w)
                                 (log OpXDestroyImage w))
           | None => Crash (log OpXDestroyImage w)
           end.

(** [shmget(IPC_PRIVATE, size, IPC_CREAT | 0777)]: a new id, or -1. *)
Definition shmget (size : Z) : M Z :=
  let* ok := invoke OpShmget in
  if ok : bool then
    fun w => Ret (next_shmid w)
               (set_segments (<[next_shmid w := size]> (segments w))
                  (next_shmid w + 1) w)
  else ret (-1).

(** [shmat(id, NULL, 0)]: the address of a new mapping, or
    [MAP_FAILED]. *)
Definition shmat (id : Z) : M Z :=
  let* ok := invoke OpShmat in
  fun w =>
    match ok, segments w !! id with
    | true, Some size =>
        Ret (next_addr w)
          (set_mappings (<[next_addr w := replicate (Z.to_nat size) x00]> (mappings w))
             (next_addr w + 1) w)
    | _, _ => Ret MAP_FAILED w
    end.

(** Fails when nothing is mapped at [addr]. *)
Definition shmdt (addr : Z) : M Z :=
  fun w => match mappings w !! addr with
           | Some _ => Ret 0 (set_mappings (delete addr (mappings w)) (next_addr w)
                                (log OpShmdt w))
           | None => Ret (-1) (log OpShmdt w)
           end.

(** [shmctl(id, IPC_RMID, 0)]: fails when there is no segment [id]. *)
Definition shmctl_rmid (id : Z) : M Z :=
  fun w => match segments w !! id with
           | Some _ => Ret 0 (set_segments (delete id (segments w)) (next_shmid w)
                                (log OpShmctlRmid w))
           | None => Ret (-1) (log OpShmctlRmid w)
           end.

Definition XShmAttach (shminfo : XShmSegmentInfo) : M bool :=
  let* ok := invoke OpXShmAttach in
  if ok : bool then
    fun w => Ret true (set_x_attached ({[shmid shminfo]} ∪ x_attached w) w)
  else ret false.

Definition XShmDetach (shminfo : XShmSegmentInfo) : M bool :=
  let* ok := invoke OpXShmDetach in
  if ok : bool then
    fun w => Ret true (set_x_attached (x_attached w ∖ {[shmid shminfo]}) w)
  else ret false.

(** The server writes the current frame into the segment of the image;
    on failure the segment keeps what it had. *)
Definition XShmGetImage (ximg : nat) : M bool :=
  let* img := deref ximg in
  fun w =>
    let n := calls OpXShmGetImage w in
    if env_fails env OpXShmGetImage n then Ret false (log OpXShmGetImage w)
    else match mappings w !! data img with
         | Some old =>
             let frame := take (length old) (env_frame env n ++ replicate (length old) x00) in
             Ret true (set_mappings (<[data img := frame]> (mappings w)) (next_addr w)
                         (log OpXShmGetImage w))
         | None => Ret true (log OpXShmGetImage w)
         end.

(** *** mclient.c *)

Definition cleanup_shm (shmaddr shmid : Z) : M Z :=
  let* r := shmdt shmaddr in
  if r <? 0 then ret (-1)
  else
    let* r := shmctl_rmid shmid in
    if r <? 0 then ret (-1) else ret 0.

Definition xshm_cleanup (shminfo : XShmSegmentInfo) (ximg : nat) : M Z :=
  let* ok := XShmDetach shminfo in
  let err := if ok : bool then 0 else -1 in
  let* _ := XDestroyImage ximg in
  (* try to clean up shm even if X fails to detach to avoid leaks *)
  let* r := cleanup_shm (shmaddr shminfo) (shmid shminfo) in
  ret (Z.lor err r).

(** Returns the image ([None] for [NULL]) and [*shminfo] as the call
    leaves it. *)
Definition xshm_init (shminfo : XShmSegmentInfo)
  : M (option nat * XShmSegmentInfo) :=
  let* width := XDisplayWidth in
  let* height := XDisplayHeight in
  let* ximg := XShmCreateImage width height in
  match ximg with
  | None => ret (None, shminfo)
  | Some ximg =>
      let* img := deref ximg in
      let* id := shmget (bytes_per_line img * ximg_height img) in
      let shminfo := mkXShmSegmentInfo id (shmaddr shminfo) (readOnly shminfo) in
      if id <? 0 then ret (None, shminfo)
      else
        let* addr := shmat id in
        let* _ := set_image_data ximg addr in
        let shminfo := mkXShmSegmentInfo id addr (readOnly shminfo) in
        (* [shminfo->shmaddr < 0] on a pointer: an address is never
           below zero *)
        if addr <? 0 then
          let* _ := cleanup_shm addr id in
          ret (None, shminfo)
        else
          let shminfo := mkXShmSegmentInfo id addr false in
          let* ok := XShmAttach shminfo in
          if ok : bool then ret (Some ximg, shminfo)
          else
            let* _ := cleanup_shm addr id in
            ret (None, shminfo)
  end.

(** The first mode of the snapshot with the given width and height. *)
Fixpoint find_mode (ms : list XRRModeInfo) (width height : Z) : option XRRModeInfo :=
  match ms with
  | [] => None
  | mode :: ms' =>
      if (mode_width mode =? width) && (mode_height mode =? height)
      then Some mode
      else find_mode ms' width height
  end.

(** [dpy] is never [NULL] where the client calls these functions (main
    returns when [XOpenDisplay] fails), so only the other pointers are
    options. *)
Definition x_find_matching_mode (screenr : option XRRScreenResources)
    (width height : Z) : option XRRModeInfo :=
  match screenr with
  | None => None
  | Some sr => find_mode (modes sr) width height
  end.

(** Assumes only one crtc. *)
Definition x_set_mode (screenr : option XRRScreenResources)
    (mode : option XRRModeInfo) : M Z :=
  match screenr, mode with
  | Some sr, Some mode =>
      (* keep Screen PPI constant *)
      let* h := XDisplayHeight in
      let* hmm := XDisplayHeightMM in
      let mwidth := env_mm env h hmm (mode_width mode) in
      let mheight := env_mm env h hmm (mode_height mode) in
      match crtcs sr with
      | [] => crash
      | crtc0 :: _ =>
          let* crtc := XRRGetCrtcInfo crtc0 in
          if crtc : bool then
            let* ok := XRRSetCrtcConfig crtc0 (mode_id mode) in
            if ok : bool then
              let* _ := XRRSetScreenSize (mode_width mode) (mode_height mode)
                          mwidth mheight in
              ret 0
            else ret (-1)
          else crash
      end
  | _, _ => ret (-2)
  end.

Definition x_screenchangenotify_predicate (xrandr_event_base : Z) (ev : XEvent) : bool :=
  ev_type ev =? xrandr_event_base + RRScreenChangeNotify.

(** The [for (i = 0; i < 3; ++i)] loop of [x_sync_mode], with [n]
    iterations left. *)
Fixpoint x_sync_mode_loop (n : nat) (mode : XRRModeInfo) (xrandr_event_base : Z) : M Z :=
  match n with
  | O => ret (-1)
  | S n' =>
      let* ev := XIfEvent (x_screenchangenotify_predicate xrandr_event_base) in
      if ev_type ev =? xrandr_event_base + RRScreenChangeNotify then
        if (u32 (ev_width ev) =? mode_width mode)
           && (u32 (ev_height ev) =? mode_height mode)
        then
          (* Yes, this is our update! *)
          let* r := XRRUpdateConfiguration ev in
          if r =? 0 then ret (-1) else ret 0
        else x_sync_mode_loop n' mode xrandr_event_base
      else x_sync_mode_loop n' mode xrandr_event_base
  end.

Definition x_sync_mode (screenr : option XRRScreenResources)
    (mode : option XRRModeInfo) (xrandr_event_base : Z) : M Z :=
  match screenr, mode with
  | Some _, Some mode =>
      if xrandr_event_base <? 0 then ret (-2)
      else x_sync_mode_loop 3 mode xrandr_event_base
  | _, _ => ret (-2)
  end.

(** Lines 353 to 375 of [sync_displays]: the size of the real display,
    when the destination subsystem reports a valid one. *)
Definition target_size : M (option (Z * Z)) :=
  let* dinfo := MGetDisplayInfo in
  match dinfo with
  | None => ret None
  | Some dinfo =>
      if (0 <? dinfo_width dinfo) && (0 <? dinfo_height dinfo)
      then ret (Some (dinfo_width dinfo, dinfo_height dinfo))
      else ret None
  end.

(** Lines 384 to 393: re-sync before the server grab, without waiting. *)
Definition resync_pending (xrandr_event_base : Z) : M unit :=
  let* ev := XCheckIfEvent (x_screenchangenotify_predicate xrandr_event_base) in
  match ev with
  | Some ev => let* _ := XRRUpdateConfiguration ev in ret tt
  | None => ret tt
  end.

(** Try to sync up MDisplay with XDisplay. *)
Definition sync_displays (xrandr_event_base : Z) : M Z :=
  let* target := target_size in
  match target with
  | None => ret (-1)
  | Some (target_width, target_height) =>
      let* _ := resync_pending xrandr_event_base in
      let* _ := XGrabServer in
      let* xwidth := XDisplayWidth in
      let* xheight := XDisplayHeight in
      let x_sync_needed :=
        negb (u32 xwidth =? target_width) || negb (u32 xheight =? target_height) in
      let* err :=
        if x_sync_needed then
          let* screenr := XRRGetScreenResources in
          let matching_mode := x_find_matching_mode screenr target_width target_height in
          let* err :=
            match matching_mode with
            | Some _ =>
                let* r := x_set_mode screenr matching_mode in
                if r =? 0 then
                  let* r := x_sync_mode screenr matching_mode xrandr_event_base in
                  if r =? 0 then ret 0 else ret (-1)
                else ret (-1)
            | None => ret (-1)
            end in
          let* _ := XRRFreeScreenResources screenr in
          ret err
        else ret 0 in
      let* _ := XUngrabServer in
      ret err
  end.

(** Returns the code's return value and [*buf] as the call leaves it. *)
Definition render_root (buf : MBuffer) (ximg : nat) : M (Z * MBuffer) :=
  let* ok := invoke OpMLockBuffer in
  if ok : bool then
    let* status := XShmGetImage ximg in
    (* a failed fetch is only logged *)
    let* img := deref ximg in
    let* buf' := fun w =>
      match copy_ximg_to_buffer_mlocked buf img (default [] (mappings w !! data img)) with
      | Some (_, buf') => Ret buf' w
      | None => Crash w
      end in
    let* ok := invoke OpMUnlockBuffer in
    if ok : bool then ret (0, buf') else ret (-1, buf')
  else ret (-1, buf).

(** [ximg] is passed by value: the image [resize_shm] creates is
    assigned to its own parameter, and only [*shminfo] and the return
    value reach the caller. *)
Definition resize_shm (ximg : nat) (shminfo : XShmSegmentInfo)
  : M (Z * XShmSegmentInfo) :=
  let* xwidth := XDisplayWidth in
  let* xheight := XDisplayHeight in
  let* img := deref ximg in
  let shm_resize_needed :=
    negb (ximg_width img =? xwidth) || negb (ximg_height img =? xheight) in
  if shm_resize_needed then
    let* _ := xshm_cleanup shminfo ximg in
    let* '(ximg', shminfo') := xshm_init shminfo in
    ret (match ximg' with None => -1 | Some _ => 0 end, shminfo')
  else ret (0, shminfo).

(** Modelled from the spec: [MCreateBuffer] and [MResizeBuffer] (mlib)
    are not part of the sources; the spec has the destination subsystem
    create and resize a lockable pixel buffer of a given width and
    height.  The storage it hands out has [stride * 4] bytes a row. *)
Definition sized_buffer (width height : Z) : MBuffer :=
  mkMBuffer width height (env_stride env width)
    (replicate (Z.to_nat (env_stride env width * 4 * height)) x00).

Definition MCreateBuffer (width height : Z) : M (option MBuffer) :=
  let* ok := invoke OpMCreateBuffer in
  if ok : bool then ret (Some (sized_buffer width height)) else ret None.

Definition MResizeBuffer (width height : Z) : M (option MBuffer) :=
  let* ok := invoke OpMResizeBuffer in
  if ok : bool then ret (Some (sized_buffer width height)) else ret None.

Definition resize_mbuffer (root : MBuffer) : M (Z * MBuffer) :=
  let* xwidth := XDisplayWidth in
  let* xheight := XDisplayHeight in
  let buffer_resize_needed :=
    negb (buf_width root =? u32 xwidth) || negb (buf_height root =? u32 xheight) in
  if buffer_resize_needed then
    let* r := MResizeBuffer (u32 xwidth) (u32 xheight) in
    match r with
    | Some root' => ret (0, root')
    | None => ret (-1, root)
    end
  else ret (0, root).

(** The locals of [main] that the event loop works on. *)
Record Locals := mkLocals {
  l_root : MBuffer;
  l_ximg : nat;
  l_shminfo : XShmSegmentInfo
}.

(** The [do ... while (1)] loop of [main]: it ends only by [break], and
    returns the locals it stops with.  Every iteration takes an event
    from a finite supply; [fuel] bounds the iterations. *)
Fixpoint event_loop (fuel : nat) (l : Locals) : M Locals :=
  match fuel with
  | O => fun w => Fuel w
  | S fuel' =>
      let* ev := XNextEvent in
      if ev_type ev =? env_xdamage_event_base env + XDamageNotify then
        let* _ := invoke OpXDamageSubtract in
        let* '(_, root') := render_root (l_root l) (l_ximg l) in
        event_loop fuel' (mkLocals root' (l_ximg l) (l_shminfo l))
      else if ev_type ev =? env_xrandr_event_base env + RRScreenChangeNotify then
        let* _ := XRRUpdateConfiguration ev in
        let* _ := sync_displays (env_xrandr_event_base env) in
        (* Make sure our buffer sizes match up with the display size. *)
        let* '(r, shminfo') := resize_shm (l_ximg l) (l_shminfo l) in
        if r <? 0 then ret (mkLocals (l_root l) (l_ximg l) shminfo')
        else
          let* '(r, root') := resize_mbuffer (l_root l) in
          if r <? 0 then ret (mkLocals root' (l_ximg l) shminfo')
          else event_loop fuel' (mkLocals root' (l_ximg l) shminfo')
      else
        let* _ := invoke OpMcursorOnEvent in
        event_loop fuel' l
  end.

(** The [cleanup_1] label. *)
Definition cleanup_1 (err : Z) : M Z :=
  let* _ := invoke OpCursorCacheFree in
  let* _ := invoke OpMCloseDisplay in
  let* _ := invoke OpXCloseDisplay in
  ret err.

(** Returns what [main] returns.  The reads of the screen size that only
    feed a log line are left out, as are the log lines themselves. *)
Definition main (fuel : nat) : M Z :=
  let err := 0 in
  let* ok := invoke OpXInitThreads in
  if negb ok then ret (-1) else
  let* ok := invoke OpXOpenDisplay in
  if negb ok then ret (-1) else
  let* ok := invoke OpXShmQueryExtension in
  if negb ok then let* _ := invoke OpXCloseDisplay in ret (-1) else
  let* ok := invoke OpXDamageQueryExtension in
  if negb ok then let* _ := invoke OpXCloseDisplay in ret (-1) else
  let* ok := invoke OpXRRQueryExtension in
  if negb ok then let* _ := invoke OpXCloseDisplay in ret (-1) else
  let* ok := invoke OpMOpenDisplay in
  if negb ok then let* _ := invoke OpXCloseDisplay in ret (-1) else
  let* _ := invoke OpXSetErrorHandler in
  let* _ := invoke OpXRRSelectInput in
  let* _ := sync_displays (env_xrandr_event_base env) in
  let* width := XDisplayWidth in
  let* height := XDisplayHeight in
  let* created := MCreateBuffer (u32 width) (u32 height) in
  match created with
  | None => cleanup_1 (-1)
  | Some root =>
      let* ok := invoke OpMcursorInit in
      if negb ok then cleanup_1 (-1) else
      (* [shminfo] is not initialised; [xshm_init] sets the fields it uses *)
      let* '(ximg, shminfo) := xshm_init (mkXShmSegmentInfo 0 0 false) in
      match ximg with
      | None => cleanup_1 (-1)
      | Some ximg =>
          let* _ := invoke OpXDamageCreate in
          let* l := event_loop fuel (mkLocals root ximg shminfo) in
          let* _ := invoke OpXDamageDestroy in
          let* _ := xshm_cleanup (l_shminfo l) (l_ximg l) in
          cleanup_1 err
      end
  end.

(** The exit status the parent sees: the low eight bits of what [main]
    returns. *)
Definition exit_status (r : Z) : Z := r mod 256.
End program.

(** Iterations the event loop can need: one for each event there is. *)
Definition enough_fuel (w : World) : nat := S (length (queue w) + length (later w)).

(** ** Vocabulary of the properties *)

(** *** Row copy *)

(** The bytes of one pixel row, and the two strides in bytes, as the
    integers they stand for (before any 32-bit wrap). *)
Definition row_bytes (ximg : XImage) : Z :=
  ximg_width ximg * c_div (bits_per_pixel ximg) 8.
Definition dst_stride (buf : MBuffer) : Z := stride buf * 4.
Definition src_stride (ximg : XImage) : Z := bytes_per_line ximg.

(** Byte [i] lies in the [n] bytes from [off]. *)
Definition in_row (off n : Z) (i : nat) : Prop := off <= Z.of_nat i < off + n.

(** *** Confirmation wait *)

(** The screen-change notifications there are for a wait to see: those in
    the queue, then those still to arrive. *)
Definition notifications (base : Z) (w : World) : list XEvent :=
  List.filter (x_screenchangenotify_predicate base) (queue w ++ later w).

Definition mode_matches (mode : XRRModeInfo) (ev : XEvent) : bool :=
  (u32 (ev_width ev) =? mode_width mode) && (u32 (ev_height ev) =? mode_height mode).

(** The wait as the spec words it (4.3 step 8): poll for a notification
    that matches the applied mode, up to a bound; a match confirms,
    exhausting the bound fails.  [Waiting] is the case the spec leaves
    out: fewer notifications than the polls need. *)
Inductive confirmation :=
  | Confirmed (ev : XEvent)
  | Unconfirmed
  | Waiting.

Fixpoint confirm (bound : nat) (mode : XRRModeInfo) (ns : list XEvent) : confirmation :=
  match bound with
  | O => Unconfirmed
  | S bound' =>
      match ns with
      | [] => Waiting
      | ev :: ns' =>
          if mode_matches mode ev then Confirmed ev else confirm bound' mode ns'
      end
  end.

(** How many notifications the wait takes out of the stream. *)
Fixpoint examined (bound : nat) (mode : XRRModeInfo) (ns : list XEvent) : nat :=
  match bound with
  | O => O
  | S bound' =>
      match ns with
      | [] => O
      | ev :: ns' =>
          if mode_matches mode ev then 1%nat else S (examined bound' mode ns')
      end
  end.

(** What [x_sync_mode] returns on a match: 0 unless the refresh of the
    local configuration fails. *)
Definition update_code (env : Env) (w : World) : Z :=
  if env_fails env OpXRRUpdateConfiguration (calls OpXRRUpdateConfiguration w)
  then -1 else 0.

Definition returns {A} (o : outcome A) : Prop := exists a w, o = Ret a w.

(** *** Calls of a negotiation attempt *)

(** Reading or changing the geometry of the source display (steps 4 to 6
    of the negotiation). *)
Definition geometry_op (op : Op) : bool :=
  match op with
  | OpXDisplayWidth | OpXDisplayHeight | OpXDisplayHeightMM
  | OpXRRGetScreenResources | OpXRRGetCrtcInfo
  | OpXRRSetCrtcConfig | OpXRRSetScreenSize => true
  | _ => false
  end.

Definition grab_op (op : Op) : bool :=
  match op with
  | OpXGrabServer | OpXUngrabServer => true
  | _ => false
  end.

(** Applying a mode, updating the screen size, polling for the
    confirmation. *)
Definition apply_or_wait_op (op : Op) : bool :=
  match op with
  | OpXRRSetCrtcConfig | OpXRRSetScreenSize | OpXIfEvent => true
  | _ => false
  end.

(** The calls made before the grab (steps 1 and 2). *)
Definition pre_grab_op (op : Op) : bool :=
  match op with
  | OpMGetDisplayInfo | OpXCheckIfEvent | OpXRRUpdateConfiguration => true
  | _ => false
  end.

(** The calls made between the grab and its release. *)
Definition under_grab_op (op : Op) : bool :=
  match op with
  | OpXDisplayWidth | OpXDisplayHeight | OpXDisplayHeightMM
  | OpXRRGetScreenResources | OpXRRFreeScreenResources | OpXRRGetCrtcInfo
  | OpXRRSetCrtcConfig | OpXRRSetScreenSize | OpXIfEvent
  | OpXRRUpdateConfiguration => true
  | _ => false
  end.

(** Every poll of [t] is made while the grab is held ([held]: whether it
    is held before [t]). *)
Fixpoint polls_under_grab (held : bool) (t : list Op) : bool :=
  match t with
  | [] => true
  | OpXGrabServer :: t' => polls_under_grab true t'
  | OpXUngrabServer :: t' => polls_under_grab false t'
  | OpXIfEvent :: t' => held && polls_under_grab held t'
  | _ :: t' => polls_under_grab held t'
  end.

(** Every poll of [t] is made while the grab is not held. *)
Fixpoint polls_outside_grab (held : bool) (t : list Op) : bool :=
  match t with
  | [] => true
  | OpXGrabServer :: t' => polls_outside_grab true t'
  | OpXUngrabServer :: t' => polls_outside_grab false t'
  | OpXIfEvent :: t' => negb held && polls_outside_grab held t'
  | _ :: t' => polls_outside_grab held t'
  end.

(** Every call of [t] that reads or changes the source geometry is made
    while the grab is held ([held]: whether it is held before [t]); the
    grab is taken only when it is not held, and released only when it
    is. *)
Fixpoint geometry_under_grab (held : bool) (t : list Op) : bool :=
  match t with
  | [] => true
  | OpXGrabServer :: t' => negb held && geometry_under_grab true t'
  | OpXUngrabServer :: t' => held && geometry_under_grab false t'
  | op :: t' => (negb (geometry_op op) || held) && geometry_under_grab held t'
  end.

(** The outcomes the spec gives [synchronize]. *)
Inductive Outcome := Synced | UsingCurrentMode | Failed.

(** *** Relations a program keeps between the world it starts in and the
    world it ends in *)

Definition preserves (R : World -> World -> Prop) {A} (m : M A) : Prop :=
  forall w, R w (world_of (m w)).

(** The trace grows by calls that all satisfy [S]. *)
Definition extends (S : Op -> bool) (w w' : World) : Prop :=
  exists t, trace w' = trace w ++ t /\ forallb S t = true.

(** No event is added to the supply. *)
Definition events_left (w : World) : nat := (length (queue w) + length (later w))%nat.
Definition consumes (w w' : World) : Prop := (events_left w' <= events_left w)%nat.

(** A program that runs under the grab and ends by releasing it. *)
Definition grab_section {A} (m : M A) : Prop :=
  forall w, exists mid, forallb under_grab_op mid = true /\
    match m w with
    | Ret _ w' => trace w' = trace w ++ mid ++ [OpXUngrabServer] /\ grabbed w' = false
    | Blocks w' | Crash w' | Fuel w' => trace w' = trace w ++ mid
    end.

(** [m] makes the call [op] once, or no call. *)
Definition logs {A} (op : Op) (m : M A) : Prop :=
  forall w, trace (world_of (m w)) = trace w ++ [op] \/ trace (world_of (m w)) = trace w.

(** [m] adds no event and does not stop for lack of iterations. *)
Definition tame {A} (m : M A) : Prop :=
  forall w, consumes w (world_of (m w)) /\ forall w', m w <> Fuel w'.

(** [n] iterations are enough for [m] wherever fewer than [n] events are
    left. *)
Definition fuelled (n : nat) {A} (m : M A) : Prop :=
  forall w, (events_left w < n)%nat -> forall w', m w <> Fuel w'.

(** *** Exit code *)

(** What [main] returns when it returns: -1 before the capture is set
    up, and 0 whenever it has been. *)
Definition early_or_zero (m : M Z) : Prop :=
  forall w r w', m w = Ret r w' ->
    (r = -1 /\ calls OpXDamageCreate w' = calls OpXDamageCreate w) \/ r = 0.

Definition only_zero (m : M Z) : Prop :=
  forall w r w', m w = Ret r w' -> r = 0.

(** *** Frame render *)

(** What [render_root] returns once the buffer is locked: the unlock
    decides. *)
Definition unlock_code (env : Env) (w : World) : Z :=
  if env_fails env OpMUnlockBuffer (calls OpMUnlockBuffer w) then -1 else 0.

(** *** What a call leaves alone *)

(** The part [f] of the world is at the end what it was at the start. *)
Definition keeps {T} (f : World -> T) (w w' : World) : Prop := f w' = f w.

(** The events that are not screen-change notifications, in the order
    they are delivered in. *)
Definition other_events (base : Z) (w : World) : list XEvent :=
  List.filter (fun ev => negb (x_screenchangenotify_predicate base ev))
    (queue w ++ later w).

(** Images, segments, mappings, what the server has attached, and the
    allocators. *)
Definition shm_state (w : World)
  : gmap nat XImage * nat * gmap Z Z * Z * gmap Z (list byte) * Z * gset Z :=
  (images w, next_image w, segments w, next_shmid w, mappings w, next_addr w,
   x_attached w).

(** What the program holds of them, the allocators apart. *)
Definition shm_resources (w : World)
  : gmap nat XImage * gmap Z Z * gmap Z (list byte) * gset Z :=
  (images w, segments w, mappings w, x_attached w).

(** The allocators hand out image addresses, segment ids and mapping
    addresses that are not in use, and addresses are not [MAP_FAILED]. *)
Definition well_formed (w : World) : Prop :=
  (forall a, (next_image w <= a)%nat -> images w !! a = None) /\
  (forall id, next_shmid w <= id -> segments w !! id = None /\ id ∉ x_attached w) /\
  (forall p, next_addr w <= p -> mappings w !! p = None) /\
  0 <= next_shmid w /\ 0 <= next_addr w < MAP_FAILED.

(** *** Order of the calls of a run *)

(** Every lock of the buffer in [t] comes right after an acknowledgement
    of the damage ([prev]: the call made before [t]). *)
Fixpoint locks_acked (prev : Op) (t : list Op) : bool :=
  match t with
  | [] => true
  | op :: t' =>
      (if Op_eq_dec op OpMLockBuffer
       then (if Op_eq_dec prev OpXDamageSubtract then true else false)
       else true)
      && locks_acked op t'
  end.

Definition not_lock (op : Op) : bool := negb (bool_decide (op = OpMLockBuffer)).

(** The call made last. *)
Definition last_call (w : World) : Op := List.last (trace w) OpXInitThreads.

Definition acks_locks (w w' : World) : Prop :=
  exists t, trace w' = trace w ++ t /\ locks_acked (last_call w) t = true.

(** [m], when it returns, has closed the connection to the X server as
    its last call. *)
Definition closes_display {A} (m : M A) : Prop :=
  forall w a w', m w = Ret a w' -> last (trace w') = Some OpXCloseDisplay.

(** ** Sample runs

    Small displays (a few pixels) keep the frames short; the code takes
    the same paths at any size. *)
Module Sample.

(** The calls that fail: [(op, n)] makes the n-th call of [op] fail. *)
Definition faults (l : list (Op * nat)) (op : Op) (n : nat) : bool :=
  existsb (fun f => bool_decide (f.1 = op) && (f.2 =? n)%nat) l.

(** Two modes, 2x2 and 4x2, and one crtc. *)
Definition resources : XRRScreenResources :=
  mkXRRScreenResources [mkXRRModeInfo 7 2 2; mkXRRModeInfo 8 4 2] [1].

Definition damage_base : Z := 100.
Definition randr_base : Z := 200.

(** An environment in which the calls of [fails] fail, the allocator
    places the n-th image at [image_addr n], and the destination
    display is [dw] x [dh].  32 bits a pixel, rows padded to 64 bits,
    a destination stride of one pixel more than the width. *)
Definition env (fails : list (Op * nat)) (image_addr : nat -> nat) (dw dh : Z) : Env :=
  mkEnv (faults fails) (fun _ => mkMDisplayInfo dw dh) (fun _ => Some resources)
    (fun _ => 0%nat) image_addr 32 64 (fun n => replicate 64 xff)
    (fun width => width + 1) damage_base randr_base (fun _ _ px => px).

(** The allocator that never hands out an address twice, and the one
    that always tries the first address again. *)
Definition fresh_addr (n : nat) : nat := S n.
Definition same_addr (n : nat) : nat := 0%nat.

(** A world with a [width] x [height] screen, no resources yet, and the
    given events. *)
Definition world (width height : Z) (q l : list XEvent) : World :=
  mkWorld (mkGeometry width height width height)
    (mkGeometry width height width height) 7 false q l ∅ 0 ∅ 0 ∅ 0 ∅ [].

Definition screen_change (width height : Z) : XEvent :=
  mkXEvent (randr_base + RRScreenChangeNotify) width height width height.
Definition damage : XEvent := mkXEvent (damage_base + XDamageNotify) 0 0 0 0.
Definition other_event : XEvent := mkXEvent 6 0 0 0 0.

Definition mode_4x2 : XRRModeInfo := mkXRRModeInfo 8 4 2.

(** The state of a capture: a 2x2 screen, its image at address 0 (rows
    of 8 bytes) over a mapping that holds the bytes 1 to 16 of an
    earlier frame, and a 2x2 buffer with a stride of 3 pixels. *)
Definition capture_world : World :=
  mkWorld (mkGeometry 2 2 2 2) (mkGeometry 2 2 2 2) 7 false [] []
    {[0%nat := mkXImage 2 2 32 8 0]} 1 {[0 := 16]} 1
    {[0 := map (fun k => default x00 (Byte.of_nat k)) (seq 1 16)]} 1 {[0]} [].
Definition capture_buffer : MBuffer := mkMBuffer 2 2 3 (replicate 24 x00).
Definition capture_shminfo : XShmSegmentInfo := mkXShmSegmentInfo 0 0 false.

(** The first [n] byte values from [start], as pixel data. *)
Definition ramp (start n : nat) : list byte :=
  map (fun k => default x00 (Byte.of_nat k)) (seq start n).

End Sample.

(** * Properties *)

(** ** Sequencing *)

Lemma bind_Ret {A B} (m : M A) (k : A -> M B) w a w' :
  m w = Ret a w' -> bind m k w = k a w'.
Proof. unfold bind. by intros ->. Qed.

Lemma bind_Blocks {A B} (m : M A) (k : A -> M B) w w' :
  m w = Blocks w' -> bind m k w = Blocks w'.
Proof. unfold bind. by intros ->. Qed.

Lemma bind_returns {A B} (m : M A) (k : A -> M B) w b w' :
  bind m k w = Ret b w' -> exists a w1, m w = Ret a w1 /\ k a w1 = Ret b w'.
Proof. unfold bind. destruct (m w); try discriminate. eauto. Qed.

(** ** Counting calls *)

Lemma calls_log_ne op op' w : op <> op' -> calls op (log op' w) = calls op w.
Proof.
  intros Hne. unfold calls, log. simpl. rewrite count_occ_app. simpl.
  destruct (Op_eq_dec op' op); [congruence|lia].
Qed.

(** Only [log] changes the count of a call. *)
Lemma calls_set_disp op g w : calls op (set_disp g w) = calls op w.
Proof. reflexivity. Qed.
Lemma calls_set_srv op g w : calls op (set_srv g w) = calls op w.
Proof. reflexivity. Qed.
Lemma calls_set_srv_mode op m w : calls op (set_srv_mode m w) = calls op w.
Proof. reflexivity. Qed.
Lemma calls_set_grabbed op b w : calls op (set_grabbed b w) = calls op w.
Proof. reflexivity. Qed.
Lemma calls_set_events op q l w : calls op (set_events q l w) = calls op w.
Proof. reflexivity. Qed.
Lemma calls_set_images op im n w : calls op (set_images im n w) = calls op w.
Proof. reflexivity. Qed.
Lemma calls_set_segments op s n w : calls op (set_segments s n w) = calls op w.
Proof. reflexivity. Qed.
Lemma calls_set_mappings op m n w : calls op (set_mappings m n w) = calls op w.
Proof. reflexivity. Qed.
Lemma calls_set_x_attached op s w : calls op (set_x_attached s w) = calls op w.
Proof. reflexivity. Qed.

Ltac calls_simpl :=
  repeat first
    [ rewrite calls_set_disp | rewrite calls_set_srv | rewrite calls_set_srv_mode
    | rewrite calls_set_grabbed | rewrite calls_set_events | rewrite calls_set_images
    | rewrite calls_set_segments | rewrite calls_set_mappings
    | rewrite calls_set_x_attached
    | rewrite calls_log_ne by discriminate ].

Lemma calls_extends op w w' :
  extends (fun o => negb (bool_decide (o = op))) w w' -> calls op w' = calls op w.
Proof.
  intros (t & Ht & HS). unfold calls. rewrite Ht, count_occ_app.
  rewrite (proj1 (count_occ_not_In Op_eq_dec t op)); [lia|].
  intros Hin. rewrite forallb_forall in HS. specialize (HS _ Hin).
  by rewrite bool_decide_eq_true_2 in HS.
Qed.

Lemma forallb_impl {A} (f g : A -> bool) (l : list A) :
  (forall x, f x = true -> g x = true) -> forallb f l = true -> forallb g l = true.
Proof. rewrite !forallb_forall. auto. Qed.

(** ** What a program keeps *)

Section preservation.
Variable R : World -> World -> Prop.
Hypothesis R_refl : forall w, R w w.
Hypothesis R_trans : forall w1 w2 w3, R w1 w2 -> R w2 w3 -> R w1 w3.

Lemma preserves_ret {A} (a : A) : preserves R (ret a).
Proof. intros w. apply R_refl. Qed.

Lemma preserves_crash {A} : preserves R (@crash A).
Proof. intros w. apply R_refl. Qed.

Lemma preserves_bind {A B} (m : M A) (k : A -> M B) :
  preserves R m -> (forall a, preserves R (k a)) -> preserves R (bind m k).
Proof.
  intros Hm Hk w. specialize (Hm w). unfold bind.
  destruct (m w) as [a w1|w1|w1|w1]; simpl in *; try done.
  eapply R_trans; [done|apply Hk].
Qed.
End preservation.

Lemma extends_refl S w : extends S w w.
Proof. exists []. by rewrite app_nil_r. Qed.

Lemma extends_trans S w1 w2 w3 : extends S w1 w2 -> extends S w2 w3 -> extends S w1 w3.
Proof.
  intros (t1 & H1 & HS1) (t2 & H2 & HS2). exists (t1 ++ t2).
  by rewrite H2, H1, <- app_assoc, forallb_app, HS1, HS2.
Qed.

Lemma extends_mono (S S' : Op -> bool) w w' :
  (forall op, S op = true -> S' op = true) -> extends S w w' -> extends S' w w'.
Proof. intros HSS (t & Ht & HS). exists t. split; [done|]. by eapply forallb_impl. Qed.

Lemma extends_logs {A} (S : Op -> bool) (m : M A) op :
  logs op m -> S op = true -> preserves (extends S) m.
Proof.
  intros Hm HS w. destruct (Hm w) as [H|H].
  - exists [op]. simpl. by rewrite HS.
  - exists []. by rewrite app_nil_r.
Qed.

Ltac logs_tac :=
  intros w; unfold invoke, bind, ret; cbn; repeat case_match; simplify_eq; cbn; auto.

Section calls_logged.
Variable env : Env.

Lemma logs_invoke op : logs op (invoke env op).
Proof. logs_tac. Qed.
Lemma logs_XDisplayWidth : logs OpXDisplayWidth XDisplayWidth.
Proof. logs_tac. Qed.
Lemma logs_XDisplayHeight : logs OpXDisplayHeight XDisplayHeight.
Proof. logs_tac. Qed.
Lemma logs_XDisplayHeightMM : logs OpXDisplayHeightMM XDisplayHeightMM.
Proof. logs_tac. Qed.
Lemma logs_MGetDisplayInfo : logs OpMGetDisplayInfo (MGetDisplayInfo env).
Proof. logs_tac. Qed.
Lemma logs_XIfEvent p : logs OpXIfEvent (XIfEvent p).
Proof. unfold XIfEvent. logs_tac. Qed.
Lemma logs_XCheckIfEvent p : logs OpXCheckIfEvent (XCheckIfEvent env p).
Proof. unfold XCheckIfEvent. logs_tac. Qed.
Lemma logs_XNextEvent : logs OpXNextEvent XNextEvent.
Proof. unfold XNextEvent. logs_tac. Qed.
Lemma logs_XRRUpdateConfiguration ev :
  logs OpXRRUpdateConfiguration (XRRUpdateConfiguration env ev).
Proof. unfold XRRUpdateConfiguration. logs_tac. Qed.
Lemma logs_XGrabServer : logs OpXGrabServer XGrabServer.
Proof. logs_tac. Qed.
Lemma logs_XUngrabServer : logs OpXUngrabServer XUngrabServer.
Proof. logs_tac. Qed.
Lemma logs_XRRGetCrtcInfo c : logs OpXRRGetCrtcInfo (XRRGetCrtcInfo env c).
Proof. apply logs_invoke. Qed.
Lemma logs_XRRSetCrtcConfig c m : logs OpXRRSetCrtcConfig (XRRSetCrtcConfig env c m).
Proof. unfold XRRSetCrtcConfig. logs_tac. Qed.
Lemma logs_XRRSetScreenSize a b c d : logs OpXRRSetScreenSize (XRRSetScreenSize a b c d).
Proof. logs_tac. Qed.
Lemma logs_XRRGetScreenResources : logs OpXRRGetScreenResources (XRRGetScreenResources env).
Proof. logs_tac. Qed.
Lemma logs_XRRFreeScreenResources sr :
  logs OpXRRFreeScreenResources (XRRFreeScreenResources sr).
Proof. logs_tac. Qed.
Lemma logs_deref ximg : logs OpXDestroyImage (deref ximg).
Proof. unfold deref. logs_tac. Qed.
Lemma logs_set_image_data ximg addr : logs OpXDestroyImage (set_image_data ximg addr).
Proof. unfold set_image_data. logs_tac. Qed.
Lemma logs_XShmCreateImage a b : logs OpXShmCreateImage (XShmCreateImage env a b).
Proof. unfold XShmCreateImage. logs_tac. Qed.
Lemma logs_XDestroyImage ximg : logs OpXDestroyImage (XDestroyImage ximg).
Proof. unfold XDestroyImage. logs_tac. Qed.
Lemma logs_shmget size : logs OpShmget (shmget env size).
Proof. unfold shmget. logs_tac. Qed.
Lemma logs_shmat id : logs OpShmat (shmat env id).
Proof. unfold shmat. logs_tac. Qed.
Lemma logs_shmdt addr : logs OpShmdt (shmdt addr).
Proof. unfold shmdt. logs_tac. Qed.
Lemma logs_shmctl_rmid id : logs OpShmctlRmid (shmctl_rmid id).
Proof. unfold shmctl_rmid. logs_tac. Qed.
Lemma logs_XShmAttach si : logs OpXShmAttach (XShmAttach env si).
Proof. unfold XShmAttach. logs_tac. Qed.
Lemma logs_XShmDetach si : logs OpXShmDetach (XShmDetach env si).
Proof. unfold XShmDetach. logs_tac. Qed.
Lemma logs_XShmGetImage ximg : logs OpXShmGetImage (XShmGetImage env ximg).
Proof. unfold XShmGetImage, deref. logs_tac. Qed.
Lemma logs_MCreateBuffer a b : logs OpMCreateBuffer (MCreateBuffer env a b).
Proof. unfold MCreateBuffer. logs_tac. Qed.
Lemma logs_MResizeBuffer a b : logs OpMResizeBuffer (MResizeBuffer env a b).
Proof. unfold MResizeBuffer. logs_tac. Qed.
End calls_logged.

Create HintDb logs discriminated.
#[export] Hint Resolve logs_invoke logs_XDisplayWidth logs_XDisplayHeight
  logs_XDisplayHeightMM logs_MGetDisplayInfo logs_XIfEvent logs_XCheckIfEvent
  logs_XNextEvent logs_XRRUpdateConfiguration logs_XGrabServer logs_XUngrabServer
  logs_XRRGetCrtcInfo logs_XRRSetCrtcConfig logs_XRRSetScreenSize
  logs_XRRGetScreenResources logs_XRRFreeScreenResources logs_deref
  logs_set_image_data logs_XShmCreateImage logs_XDestroyImage logs_shmget
  logs_shmat logs_shmdt logs_shmctl_rmid logs_XShmAttach logs_XShmDetach
  logs_XShmGetImage logs_MCreateBuffer logs_MResizeBuffer : logs.

(** Chains the rules above through a program: every call it can make
    satisfies the predicate of the goal. *)
Ltac extends_tac :=
  repeat first
    [ progress cbv beta zeta
    | apply preserves_ret; apply extends_refl
    | apply preserves_crash; apply extends_refl
    | eapply extends_logs; [solve [eauto with logs]|reflexivity]
    | apply preserves_bind; [apply extends_trans| |intros ?]
    | match goal with
      | |- preserves _ (match ?x with _ => _ end) => destruct x
      end ].

(** ** Row copy *)

Lemma u32_small z : 0 <= z < 2 ^ 32 -> u32 z = z.
Proof. intros. unfold u32. apply Z.mod_small. lia. Qed.

Lemma u32_mul_r a b : u32 (a * u32 b) = u32 (a * b).
Proof. unfold u32. apply Z.mul_mod_idemp_r. lia. Qed.

Lemma bytes_at_lookup (l : list byte) off n (k : nat) :
  0 <= off -> Z.of_nat k < n ->
  bytes_at l off n !! k = l !! (Z.to_nat off + k)%nat.
Proof.
  intros. unfold bytes_at. rewrite lookup_take_lt by lia. by rewrite lookup_drop.
Qed.

Lemma bytes_at_length (l : list byte) off n :
  0 <= off -> 0 <= n -> off + n <= Z.of_nat (length l) ->
  length (bytes_at l off n) = Z.to_nat n.
Proof. intros. unfold bytes_at. rewrite length_take, length_drop. lia. Qed.

(** Two ranges that agree byte by byte are equal. *)
Lemma bytes_at_ext (l1 l2 : list byte) off1 off2 n :
  0 <= off1 -> 0 <= off2 -> 0 <= n ->
  off1 + n <= Z.of_nat (length l1) -> off2 + n <= Z.of_nat (length l2) ->
  (forall k : nat, Z.of_nat k < n ->
     l1 !! (Z.to_nat off1 + k)%nat = l2 !! (Z.to_nat off2 + k)%nat) ->
  bytes_at l1 off1 n = bytes_at l2 off2 n.
Proof.
  intros ????? Hk. apply list_eq. intros k.
  destruct (decide (Z.of_nat k < n)).
  - rewrite !bytes_at_lookup by lia. by apply Hk.
  - rewrite !lookup_ge_None_2; [done| |]; rewrite bytes_at_length; lia.
Qed.

(** A copy inside both objects writes the range and nothing else. *)
Lemma memcpy_spec dst doff src soff n :
  0 <= doff -> 0 <= soff -> 0 <= n ->
  doff + n <= Z.of_nat (length dst) -> soff + n <= Z.of_nat (length src) ->
  exists dst', memcpy dst doff src soff n = Some dst' /\
    length dst' = length dst /\
    bytes_at dst' doff n = bytes_at src soff n /\
    (forall i : nat, ~ in_row doff n i -> dst' !! i = dst !! i).
Proof.
  intros. unfold memcpy. rewrite bool_decide_eq_true_2 by lia.
  eexists; split; [done|].
  assert (Hlen : length (bytes_at src soff n) = Z.to_nat n)
    by (apply bytes_at_length; lia).
  split; [|split].
  - rewrite !length_app, length_take, length_drop, Hlen. lia.
  - unfold bytes_at at 1.
    rewrite drop_app_length'; [|rewrite length_take; lia].
    rewrite take_app_length'; [done|by rewrite Hlen].
  - intros i Hi. unfold in_row in Hi.
    destruct (decide (Z.of_nat i < doff)).
    + rewrite lookup_app_l by (rewrite length_take; lia).
      rewrite lookup_take_lt by lia. done.
    + rewrite lookup_app_r by (rewrite length_take; lia).
      rewrite lookup_app_r by (rewrite length_take, Hlen; lia).
      rewrite lookup_drop. f_equal. rewrite length_take, Hlen. lia.
Qed.

Section row_copy.
Variables (buf : MBuffer) (ximg : XImage) (src : list byte).
Let rb := row_bytes ximg.
Let ds := dst_stride buf.
Let ss := src_stride ximg.

Hypothesis Hrb : 0 <= rb.
Hypothesis Hds : rb <= ds.
Hypothesis Hss : 0 <= ss.
Hypothesis Hsrc : Z.of_nat (length src) < 2 ^ 32.

(** One iteration: the 32-bit offsets and length are the plain ones as
    long as the row lies inside both objects. *)
Lemma copy_row_spec y dst :
  0 <= y -> Z.of_nat (length dst) < 2 ^ 32 ->
  y * ds + rb <= Z.of_nat (length dst) ->
  y * ss + rb <= Z.of_nat (length src) ->
  exists dst', copy_row buf ximg src y dst = Some dst' /\
    length dst' = length dst /\
    bytes_at dst' (y * ds) rb = bytes_at src (y * ss) rb /\
    (forall i : nat, ~ in_row (y * ds) rb i -> dst' !! i = dst !! i).
Proof.
  intros Hy Hlen Hd Hs. unfold copy_row, buf_bytes_per_line, ximg_bytes_per_pixel.
  rewrite !u32_mul_r.
  fold (dst_stride buf) (src_stride ximg) (row_bytes ximg). fold rb ds ss.
  rewrite !u32_small by nia.
  apply memcpy_spec; nia.
Qed.

(** The loop over [n] rows from [y0]: a later row starts at or after
    the end of every earlier one, so no row is written twice. *)
Lemma copy_rows_from_spec (n : nat) : forall y0 dst,
  0 <= y0 -> Z.of_nat (length dst) < 2 ^ 32 ->
  (forall y, y0 <= y < y0 + Z.of_nat n ->
     y * ds + rb <= Z.of_nat (length dst) /\ y * ss + rb <= Z.of_nat (length src)) ->
  exists dst', copy_rows_from buf ximg src (seqZ y0 (Z.of_nat n)) dst = Some dst' /\
    length dst' = length dst /\
    (forall y, y0 <= y < y0 + Z.of_nat n ->
       bytes_at dst' (y * ds) rb = bytes_at src (y * ss) rb) /\
    (forall i : nat, (forall y, y0 <= y < y0 + Z.of_nat n -> ~ in_row (y * ds) rb i) ->
       dst' !! i = dst !! i).
Proof.
  induction n as [|n IH]; intros y0 dst Hy0 Hlen Hb.
  - exists dst. rewrite seqZ_nil by lia. simpl. repeat split; auto; lia.
  - rewrite seqZ_cons by lia. simpl.
    destruct (copy_row_spec y0 dst) as (d1 & -> & Hl1 & Hrow & Hout);
      [lia|lia|apply Hb; lia|apply Hb; lia|].
    simpl. replace (Z.pred (Z.of_nat (S n))) with (Z.of_nat n) by lia.
    destruct (IH (Z.succ y0) d1) as (d2 & -> & Hl2 & Hrows & Hout2);
      [lia|lia|intros; rewrite Hl1; apply Hb; lia|].
    exists d2. split; [done|]. split; [lia|]. split.
    + intros y Hy. destruct (decide (y = y0)) as [->|Hne].
      * rewrite <- Hrow.
        destruct (Hb y0) as [Hb1 Hb2]; [lia|].
        apply bytes_at_ext; try nia.
        intros k Hk. apply Hout2. intros y' Hy'. unfold in_row. nia.
      * apply Hrows. lia.
    + intros i Hi. rewrite Hout2, Hout; [done| |].
      * apply Hi. lia.
      * intros y Hy. apply Hi. lia.
Qed.
End row_copy.

(** C1.  A frame copy over the rows [row_start .. row_end - 1] of two
    surfaces that hold those rows (each stride at least zero, the
    destination stride at least one row of pixels, both surfaces below
    4 GiB) returns 0 and leaves, for every row y of the range, exactly
    [width * bytesPerPixel] bytes of source row y (taken at y times the
    source stride) at y times the destination stride.  Every other byte
    of the destination, its row padding included, is as before; the
    source padding is never read.  The two strides are independent. *)
Theorem copy_rows_byte_exact (buf : MBuffer) (ximg : XImage) (src : list byte)
    (row_start row_end : Z) :
  0 <= row_start ->
  0 <= row_bytes ximg <= dst_stride buf ->
  0 <= src_stride ximg ->
  Z.of_nat (length (bits buf)) < 2 ^ 32 ->
  Z.of_nat (length src) < 2 ^ 32 ->
  (row_start < row_end ->
   (row_end - 1) * dst_stride buf + row_bytes ximg <= Z.of_nat (length (bits buf)) /\
   (row_end - 1) * src_stride ximg + row_bytes ximg <= Z.of_nat (length src)) ->
  exists buf',
    copy_ximg_rows_to_buffer_mlocked buf ximg src row_start row_end = Some (0, buf') /\
    buf_width buf' = buf_width buf /\ buf_height buf' = buf_height buf /\
    stride buf' = stride buf /\ length (bits buf') = length (bits buf) /\
    (forall y, row_start <= y < row_end ->
       bytes_at (bits buf') (y * dst_stride buf) (row_bytes ximg) =
       bytes_at src (y * src_stride ximg) (row_bytes ximg)) /\
    (forall i : nat,
       (forall y, row_start <= y < row_end ->
          ~ in_row (y * dst_stride buf) (row_bytes ximg) i) ->
       bits buf' !! i = bits buf !! i).
Proof.
  intros Hrs [Hrb Hds] Hss Hdst Hsrc Hfit.
  unfold copy_ximg_rows_to_buffer_mlocked, row_range.
  destruct (decide (row_start < row_end)) as [Hlt|Hge].
  - destruct Hfit as [Hfd Hfs]; [done|].
    destruct (copy_rows_from_spec buf ximg src Hrb Hds Hss Hsrc
                (Z.to_nat (row_end - row_start)) row_start (bits buf))
      as (dst' & Hrun & Hlen & Hrows & Hrest); [lia|lia| |].
    { intros y Hy. split; nia. }
    rewrite Z2Nat.id in Hrun by lia. rewrite Hrun. simpl.
    eexists. split; [done|]. simpl. repeat split; try done.
    + intros y Hy. apply Hrows. lia.
    + intros i Hi. apply Hrest. intros y Hy. apply Hi. lia.
  - rewrite seqZ_nil by lia. simpl. eexists. split; [done|]. simpl.
    repeat split; try done. intros y Hy. lia.
Qed.

(** A 2x2 image of 32 bits a pixel whose rows are padded to 12 bytes,
    copied into a buffer with a stride of 4 pixels. *)
Lemma copy_rows_byte_exact_witness :
  exists buf',
    copy_ximg_rows_to_buffer_mlocked (mkMBuffer 2 2 4 (replicate 32 x00))
      (mkXImage 2 2 32 12 0) (Sample.ramp 1 24) 0 2 = Some (0, buf') /\
    bits buf' = Sample.ramp 1 8 ++ replicate 8 x00 ++ Sample.ramp 13 8 ++ replicate 8 x00.
Proof.
  destruct (copy_rows_byte_exact (mkMBuffer 2 2 4 (replicate 32 x00))
              (mkXImage 2 2 32 12 0) (Sample.ramp 1 24) 0 2)
    as (buf' & Hrun & _); try (vm_compute; intuition congruence).
  exists buf'. split; [exact Hrun|].
  vm_compute in Hrun. injection Hrun as <-. reflexivity.
Defined.

(** ** Confirmation wait *)

Lemma take_event_filter p q :
  match take_event p q with
  | Some (ev, q') => p ev = true /\ List.filter p q = ev :: List.filter p q'
  | None => List.filter p q = []
  end.
Proof.
  induction q as [|e q IH]; simpl; [done|].
  destruct (p e) eqn:Hp; [done|].
  destruct (take_event p q) as [[ev q']|]; simpl; [|done].
  by rewrite Hp.
Qed.

Lemma wait_event_filter p l :
  match wait_event p l with
  | Some (skipped, ev, rest) =>
      p ev = true /\ List.filter p skipped = [] /\
      List.filter p l = ev :: List.filter p rest
  | None => List.filter p l = []
  end.
Proof.
  induction l as [|e l IH]; simpl; [done|].
  destruct (p e) eqn:Hp; [done|].
  destruct (wait_event p l) as [[[sk ev] rest]|]; simpl; [|done].
  by rewrite Hp.
Qed.

(** One poll takes the first notification there is, and never returns
    when there is none. *)
Lemma XIfEvent_spec base w :
  match notifications base w with
  | [] =>
      exists w', XIfEvent (x_screenchangenotify_predicate base) w = Blocks w' /\
        notifications base w' = [] /\ trace w' = trace w ++ [OpXIfEvent]
  | ev :: ns =>
      exists w', XIfEvent (x_screenchangenotify_predicate base) w = Ret ev w' /\
        notifications base w' = ns /\ trace w' = trace w ++ [OpXIfEvent] /\
        ev_type ev = base + RRScreenChangeNotify
  end.
Proof.
  unfold notifications, XIfEvent. rewrite List.filter_app.
  pose proof (take_event_filter (x_screenchangenotify_predicate base) (queue w)) as Hq.
  pose proof (wait_event_filter (x_screenchangenotify_predicate base) (later w)) as Hl.
  destruct (take_event _ (queue w)) as [[ev q']|].
  - destruct Hq as [Hp ->]. simpl. eexists. split; [done|].
    cbn. rewrite List.filter_app. repeat split; try done.
    unfold x_screenchangenotify_predicate in Hp. lia.
  - rewrite Hq. simpl.
    destruct (wait_event _ (later w)) as [[[sk ev] rest]|].
    + destruct Hl as (Hp & Hsk & ->). eexists. split; [done|].
      cbn. rewrite !List.filter_app, Hq, Hsk. repeat split; try done.
      unfold x_screenchangenotify_predicate in Hp. lia.
    + rewrite Hl. eexists. split; [done|]. cbn.
      rewrite app_nil_r, List.filter_app, Hq, Hl. done.
Qed.

Lemma examined_le bound mode ns : (examined bound mode ns <= bound)%nat.
Proof.
  revert ns; induction bound as [|b IH]; intros [|ev ns]; simpl; try lia.
  destruct (mode_matches mode ev); [lia|]. specialize (IH ns). lia.
Qed.

(** The wait goes on for ever exactly when the notifications run out
    before the bound and none of them matches. *)
Lemma confirm_waiting bound mode ns :
  confirm bound mode ns = Waiting <->
  (length ns < bound)%nat /\ forallb (fun ev => negb (mode_matches mode ev)) ns = true.
Proof.
  revert ns; induction bound as [|b IH]; intros [|ev ns]; simpl;
    try (split; [done|intros [? ?]; lia]).
  - split; [intros _; split; [lia|done]|done].
  - destruct (mode_matches mode ev); simpl.
    + split; [done|intros [_ ?]; done].
    + rewrite IH. split; intros [? ?]; (split; [lia|done]).
Qed.

Section confirmation_wait.
Variables (env : Env) (mode : XRRModeInfo) (base : Z).

Lemma update_code_poll w w' :
  trace w' = trace w ++ [OpXIfEvent] -> update_code env w' = update_code env w.
Proof.
  intros Ht. unfold update_code.
  rewrite (calls_extends OpXRRUpdateConfiguration w w'); [done|].
  by exists [OpXIfEvent].
Qed.

Lemma x_sync_mode_loop_spec (bound : nat) : forall w,
  let o := x_sync_mode_loop env bound mode base w in
  let ns := notifications base w in
  notifications base (world_of o) = drop (examined bound mode ns) ns /\
  match confirm bound mode ns with
  | Confirmed ev =>
      exists w', o = Ret (update_code env w) w' /\
        trace w' = trace w ++ replicate (examined bound mode ns) OpXIfEvent
                           ++ [OpXRRUpdateConfiguration]
  | Unconfirmed =>
      exists w', o = Ret (-1) w' /\
        trace w' = trace w ++ replicate (examined bound mode ns) OpXIfEvent
  | Waiting =>
      exists w', o = Blocks w' /\
        trace w' = trace w ++ replicate (S (examined bound mode ns)) OpXIfEvent
  end.
Proof.
  induction bound as [|b IH]; intros w; simpl.
  - split; [done|]. exists w. split; [done|]. by rewrite app_nil_r.
  - pose proof (XIfEvent_spec base w) as HX.
    destruct (notifications base w) as [|ev ns] eqn:Hns.
    + destruct HX as (w' & HX & Hn & Ht). rewrite (bind_Blocks _ _ _ _ HX).
      simpl. split; [done|]. eauto.
    + destruct HX as (w1 & HX & Hns1 & Ht1 & Hty).
      rewrite (bind_Ret _ _ _ _ _ HX).
      rewrite Hty, Z.eqb_refl. fold (mode_matches mode ev).
      destruct (mode_matches mode ev) eqn:Hm.
      * unfold XRRUpdateConfiguration, bind, invoke, ret.
        rewrite <- (update_code_poll w w1 Ht1). unfold update_code.
        destruct (env_fails env OpXRRUpdateConfiguration _); simpl;
          (split; [done|]); eexists; (split; [done|]); cbn; rewrite Ht1;
          by rewrite <- app_assoc.
      * specialize (IH w1). simpl in IH. rewrite Hns1 in IH.
        destruct IH as [IH2 IH1]. split; [done|].
        rewrite <- (update_code_poll w w1 Ht1).
        destruct (confirm b mode ns); destruct IH1 as (w' & -> & Ht);
          eexists; (split; [done|]); rewrite Ht, Ht1; simpl;
          by rewrite <- app_assoc.
Qed.
End confirmation_wait.

(** C4, as the code has it.  The wait after a mode change looks at no
    more than 3 screen-change notifications, taken in order from the
    queue and from the events still to arrive.  It returns 0 at the first
    one whose width and height are those of the applied mode (-1 if the
    refresh of the local configuration then fails), and -1 after three
    that do not match.  Each poll waits for a notification: when fewer
    than three are ever delivered and none of them matches, the wait does
    not return. *)
Theorem confirmation_wait_bounded env sr mode base w :
  0 <= base ->
  let o := x_sync_mode env (Some sr) (Some mode) base w in
  let ns := notifications base w in
  (examined 3 mode ns <= 3)%nat /\
  notifications base (world_of o) = drop (examined 3 mode ns) ns /\
  match confirm 3 mode ns with
  | Confirmed ev =>
      exists w', o = Ret (update_code env w) w' /\
        trace w' = trace w ++ replicate (examined 3 mode ns) OpXIfEvent
                           ++ [OpXRRUpdateConfiguration]
  | Unconfirmed =>
      exists w', o = Ret (-1) w' /\
        trace w' = trace w ++ replicate (examined 3 mode ns) OpXIfEvent
  | Waiting =>
      exists w', o = Blocks w' /\
        trace w' = trace w ++ replicate (S (examined 3 mode ns)) OpXIfEvent
  end.
Proof.
  intros Hbase. unfold x_sync_mode.
  rewrite (proj2 (Z.ltb_ge base 0)) by lia.
  split; [apply examined_le|]. apply x_sync_mode_loop_spec.
Qed.

(** Two unrelated notifications, then the one of the applied mode: the
    third poll confirms. *)
Lemma confirmation_wait_bounded_witness :
  exists w',
    x_sync_mode (Sample.env [] Sample.fresh_addr 4 2) (Some Sample.resources)
      (Some Sample.mode_4x2) Sample.randr_base
      (Sample.world 2 2 [Sample.screen_change 3 3]
         [Sample.damage; Sample.screen_change 2 2; Sample.screen_change 4 2])
    = Ret 0 w' /\
    trace w' = [OpXIfEvent; OpXIfEvent; OpXIfEvent; OpXRRUpdateConfiguration].
Proof.
  destruct (confirmation_wait_bounded (Sample.env [] Sample.fresh_addr 4 2)
              Sample.resources Sample.mode_4x2 Sample.randr_base
              (Sample.world 2 2 [Sample.screen_change 3 3]
                 [Sample.damage; Sample.screen_change 2 2; Sample.screen_change 4 2]))
    as (_ & _ & Hrun); [vm_compute; congruence|].
  exact Hrun.
Defined.

(** C4 as the spec has it fails: with no notification to come, the wait
    never returns. *)
Lemma confirmation_wait_blocks :
  ~ returns (x_sync_mode (Sample.env [] Sample.fresh_addr 4 2) (Some Sample.resources)
               (Some Sample.mode_4x2) Sample.randr_base
               (Sample.world 2 2 [Sample.damage] [Sample.other_event])).
Proof. intros (r & w' & H). vm_compute in H. discriminate. Qed.

(** ** Negotiation *)

Lemma x_set_mode_calls env sr m : preserves (extends under_grab_op) (x_set_mode env sr m).
Proof. unfold x_set_mode. extends_tac. Qed.

Lemma x_sync_mode_loop_calls env n m base :
  preserves (extends under_grab_op) (x_sync_mode_loop env n m base).
Proof. induction n as [|n IH]; simpl; extends_tac; apply IH. Qed.

Lemma x_sync_mode_calls env sr m base :
  preserves (extends under_grab_op) (x_sync_mode env sr m base).
Proof. unfold x_sync_mode. extends_tac; apply x_sync_mode_loop_calls. Qed.

Lemma grab_section_ungrab {A} (a : A) :
  grab_section (let* _ := XUngrabServer in ret a).
Proof. intros w. exists []. split; [done|]. cbn. done. Qed.

Lemma grab_section_bind {A B} (m : M A) (k : A -> M B) :
  preserves (extends under_grab_op) m -> (forall a, grab_section (k a)) ->
  grab_section (bind m k).
Proof.
  intros Hm Hk w. destruct (Hm w) as (t1 & Ht1 & HS1). unfold bind.
  destruct (m w) as [a w1|w1|w1|w1]; simpl in *; try (by exists t1).
  destruct (Hk a w1) as (t2 & HS2 & Ht2). exists (t1 ++ t2).
  rewrite forallb_app, HS1, HS2. split; [done|].
  destruct (k a w1); rewrite Ht1, <- !app_assoc in Ht2; rewrite <- ?app_assoc; done.
Qed.

Lemma polls_under_grab_pre held pre rest :
  forallb pre_grab_op pre = true ->
  polls_under_grab held (pre ++ rest) = polls_under_grab held rest.
Proof.
  induction pre as [|op pre IH]; simpl; [done|].
  intros [Hop Hpre]%andb_prop. destruct op; try discriminate; auto.
Qed.

Lemma polls_under_grab_mid mid rest :
  forallb under_grab_op mid = true ->
  polls_under_grab true (mid ++ rest) = polls_under_grab true rest.
Proof.
  induction mid as [|op mid IH]; simpl; [done|].
  intros [Hop Hmid]%andb_prop. destruct op; try discriminate; auto.
Qed.

Lemma geometry_under_grab_pre held pre rest :
  forallb pre_grab_op pre = true ->
  geometry_under_grab held (pre ++ rest) = geometry_under_grab held rest.
Proof.
  induction pre as [|op pre IH]; simpl; [done|].
  intros [Hop Hpre]%andb_prop. destruct op; try discriminate; auto.
Qed.

Lemma geometry_under_grab_mid mid rest :
  forallb under_grab_op mid = true ->
  geometry_under_grab true (mid ++ rest) = geometry_under_grab true rest.
Proof.
  induction mid as [|op mid IH]; simpl; [done|].
  intros [Hop Hmid]%andb_prop. destruct op; try discriminate; simpl; auto.
Qed.

Lemma find_mode_None ms width height :
  find_mode ms width height = None <->
  forall m, m ∈ ms -> ~ (mode_width m = width /\ mode_height m = height).
Proof.
  induction ms as [|m ms IH]; simpl.
  - split; [|done]. intros _ m Hm. by apply not_elem_of_nil in Hm.
  - destruct (mode_width m =? width) eqn:Hw, (mode_height m =? height) eqn:Hh; simpl;
      rewrite ?IH; (split; [|try (intros H; (try (exfalso; apply (H m); [left|lia]));
        intros m' Hm'; apply H; by right)]); try done;
      intros H m' [->|Hm']%elem_of_cons; auto; lia.
Qed.

Section negotiation.
Variables (env : Env) (base : Z).

(** Step 1 always returns, after one call. *)
Lemma target_size_runs w :
  exists target, target_size env w = Ret target (log OpMGetDisplayInfo w).
Proof.
  unfold target_size, MGetDisplayInfo, bind, ret.
  repeat case_match; eauto.
Qed.

(** Step 2 always returns: it does not wait, and touches the local
    configuration only. *)
Lemma resync_pending_runs w :
  exists w' t, resync_pending env base w = Ret tt w' /\
    trace w' = trace w ++ t /\
    (t = [OpXCheckIfEvent] \/ t = [OpXCheckIfEvent; OpXRRUpdateConfiguration]) /\
    srv w' = srv w /\ srv_mode w' = srv_mode w /\ grabbed w' = grabbed w.
Proof.
  unfold resync_pending, XCheckIfEvent, XRRUpdateConfiguration, invoke, bind, ret.
  repeat case_match; simplify_eq; eexists _, _; (split; [done|]); cbn;
    rewrite <- ?app_assoc; eauto 10.
Qed.

Lemma before_grab w target w1 w2 :
  target_size env w = Ret target w1 ->
  resync_pending env base w1 = Ret tt w2 ->
  exists pre, trace w2 = trace w ++ pre /\ forallb pre_grab_op pre = true /\
    srv w2 = srv w /\ srv_mode w2 = srv_mode w.
Proof.
  intros H1 H2. destruct (target_size_runs w) as (x & Hx).
  rewrite Hx in H1. injection H1 as -> <-.
  destruct (resync_pending_runs (log OpMGetDisplayInfo w))
    as (w2' & t & Hr & Ht & Hcases & Hsrv & Hmode & _).
  rewrite Hr in H2. injection H2 as <-.
  exists (OpMGetDisplayInfo :: t). rewrite Ht. cbn. rewrite <- app_assoc.
  repeat split; try done. destruct Hcases as [-> | ->]; done.
Qed.

(** The calls of an attempt, whatever its outcome: either the one
    query of the destination display, or the calls before the grab, the
    grab, the calls under it and, when the attempt returns, the
    release. *)
Lemma sync_displays_shape w :
  let o := sync_displays env base w in
  exists t, trace (world_of o) = trace w ++ t /\
    ((t = [OpMGetDisplayInfo] /\ exists w', o = Ret (-1) w') \/
     exists pre mid,
       forallb pre_grab_op pre = true /\ forallb under_grab_op mid = true /\
       match o with
       | Ret _ w' =>
           t = pre ++ OpXGrabServer :: mid ++ [OpXUngrabServer] /\ grabbed w' = false
       | _ => t = pre ++ OpXGrabServer :: mid
       end).
Proof.
  unfold sync_displays. destruct (target_size_runs w) as (target & Htarget).
  rewrite (bind_Ret _ _ _ _ _ Htarget).
  destruct target as [[tw th]|]; cbn.
  2:{ exists [OpMGetDisplayInfo]. split; [done|]. left. eauto. }
  destruct (resync_pending_runs (log OpMGetDisplayInfo w))
    as (w2 & t2 & Hr & Ht2 & Hcases & _).
  rewrite (bind_Ret _ _ _ _ _ Hr).
  rewrite (bind_Ret _ _ _ _ _ (eq_refl : XGrabServer w2 = Ret tt _)).
  assert (Hpre : forallb pre_grab_op (OpMGetDisplayInfo :: t2) = true)
    by (destruct Hcases as [-> | ->]; done).
  match goal with |- context [world_of (?m ?w3)] =>
    assert (Hsec : grab_section m);
      [|destruct (Hsec w3) as (mid & Hmid & Hrun);
        destruct (m w3) as [r w'|w'|w'|w']] end.
  { apply grab_section_bind; [extends_tac|intros xw].
    apply grab_section_bind; [extends_tac|intros xh].
    apply grab_section_bind; [|intros err; apply grab_section_ungrab].
    extends_tac; first [apply x_set_mode_calls | apply x_sync_mode_calls]. }
  all: cbn in Hrun; rewrite Ht2 in Hrun; cbn in Hrun; cbn.
  1: destruct Hrun as [Hrun Hg].
  all: rewrite Hrun; eexists; (split; [by rewrite <- !app_assoc|]); right;
    exists (OpMGetDisplayInfo :: t2), mid; done.
Qed.
End negotiation.

(** C2.  Every attempt, whatever its outcome, either stops at step 1
    (the one query of the destination display, then -1: it does not
    reach the grab) or takes the grab.  In the second case its calls
    are: calls that neither read nor change the source geometry (the
    query of the destination display and the refresh of the local
    configuration from a pending notification, steps 1 and 2), then the
    grab, then calls under the grab, and, exactly when the attempt
    returns, one release as its last call; there is no other grab or
    release.  So every call that reads or changes the source geometry
    has the grab before it and no release in between, also in an attempt
    that blocks or dies under the grab, and every way out of the attempt
    (already synced, no matching mode, mode set failure, confirmation
    failure, success) releases the grab once. *)
Theorem grab_released_once env base w :
  let o := sync_displays env base w in
  exists t, trace (world_of o) = trace w ++ t /\
    geometry_under_grab false t = true /\
    ((t = [OpMGetDisplayInfo] /\ exists w', o = Ret (-1) w') \/
     exists pre mid,
       forallb pre_grab_op pre = true /\
       forallb (fun op => negb (geometry_op op) && negb (grab_op op)) pre = true /\
       forallb (fun op => negb (grab_op op)) mid = true /\
       match o with
       | Ret _ w' =>
           t = pre ++ OpXGrabServer :: mid ++ [OpXUngrabServer] /\ grabbed w' = false
       | Blocks _ | Crash _ | Fuel _ => t = pre ++ OpXGrabServer :: mid
       end).
Proof.
  intros o. destruct (sync_displays_shape env base w) as (t & Ht & Hshape).
  fold o in Ht, Hshape. exists t. split; [done|].
  destruct Hshape as [[-> Hret]|(pre & mid & Hpre & Hmid & Hshape)].
  { split; [done|]. by left. }
  assert (Hheld : geometry_under_grab false (pre ++ OpXGrabServer :: mid ++ [OpXUngrabServer])
                  = true /\
                  geometry_under_grab false (pre ++ OpXGrabServer :: mid) = true).
  { rewrite !geometry_under_grab_pre by done. simpl.
    rewrite geometry_under_grab_mid by done.
    rewrite <- (app_nil_r mid), geometry_under_grab_mid by done. done. }
  destruct Hheld as [Hreturned Hstopped].
  assert (Hpre' : forallb (fun op => negb (geometry_op op) && negb (grab_op op)) pre = true).
  { revert Hpre. apply forallb_impl. by intros []. }
  assert (Hmid' : forallb (fun op => negb (grab_op op)) mid = true).
  { revert Hmid. apply forallb_impl. by intros []. }
  destruct o as [r w'|w'|w'|w'].
  - destruct Hshape as [-> Hg]. split; [done|]. right. by exists pre, mid.
  - subst t. split; [done|]. right. by exists pre, mid.
  - subst t. split; [done|]. right. by exists pre, mid.
  - subst t. split; [done|]. right. by exists pre, mid.
Qed.

(** The four ways out that fail or do nothing, and the success, on a
    2x2 screen. *)
Example exit_already_synced :
  exists w', sync_displays (Sample.env [] Sample.fresh_addr 2 2) Sample.randr_base
               (Sample.world 2 2 [] []) = Ret 0 w' /\
    trace w' = [OpMGetDisplayInfo; OpXCheckIfEvent; OpXGrabServer; OpXDisplayWidth;
                OpXDisplayHeight; OpXUngrabServer].
Proof. eexists. split; vm_compute; reflexivity. Qed.

Example exit_no_matching_mode :
  exists w', sync_displays (Sample.env [] Sample.fresh_addr 3 3) Sample.randr_base
               (Sample.world 2 2 [] []) = Ret (-1) w' /\
    trace w' = [OpMGetDisplayInfo; OpXCheckIfEvent; OpXGrabServer; OpXDisplayWidth;
                OpXDisplayHeight; OpXRRGetScreenResources; OpXRRFreeScreenResources;
                OpXUngrabServer].
Proof. eexists. split; vm_compute; reflexivity. Qed.

Example exit_mode_set_failure :
  exists w', sync_displays (Sample.env [(OpXRRSetCrtcConfig, 0%nat)] Sample.fresh_addr 4 2)
               Sample.randr_base (Sample.world 2 2 [] []) = Ret (-1) w' /\
    trace w' = [OpMGetDisplayInfo; OpXCheckIfEvent; OpXGrabServer; OpXDisplayWidth;
                OpXDisplayHeight; OpXRRGetScreenResources; OpXDisplayHeight;
                OpXDisplayHeightMM; OpXRRGetCrtcInfo; OpXRRSetCrtcConfig;
                OpXRRFreeScreenResources; OpXUngrabServer].
Proof. eexists. split; vm_compute; reflexivity. Qed.

Example exit_confirmation_failure :
  exists w', sync_displays (Sample.env [] Sample.fresh_addr 4 2) Sample.randr_base
               (Sample.world 2 2 []
                  [Sample.screen_change 2 2; Sample.screen_change 3 3;
                   Sample.screen_change 2 2]) = Ret (-1) w' /\
    trace w' = [OpMGetDisplayInfo; OpXCheckIfEvent; OpXGrabServer; OpXDisplayWidth;
                OpXDisplayHeight; OpXRRGetScreenResources; OpXDisplayHeight;
                OpXDisplayHeightMM; OpXRRGetCrtcInfo; OpXRRSetCrtcConfig;
                OpXRRSetScreenSize; OpXIfEvent; OpXIfEvent; OpXIfEvent;
                OpXRRFreeScreenResources; OpXUngrabServer].
Proof. eexists. split; vm_compute; reflexivity. Qed.

Example exit_success :
  exists w', sync_displays (Sample.env [] Sample.fresh_addr 4 2) Sample.randr_base
               (Sample.world 2 2 [] [Sample.screen_change 4 2]) = Ret 0 w' /\
    trace w' = [OpMGetDisplayInfo; OpXCheckIfEvent; OpXGrabServer; OpXDisplayWidth;
                OpXDisplayHeight; OpXRRGetScreenResources; OpXDisplayHeight;
                OpXDisplayHeightMM; OpXRRGetCrtcInfo; OpXRRSetCrtcConfig;
                OpXRRSetScreenSize; OpXIfEvent; OpXRRUpdateConfiguration;
                OpXRRFreeScreenResources; OpXUngrabServer] /\
    g_width (disp w') = 4 /\ g_width (srv w') = 4.
Proof. eexists. repeat split; vm_compute; reflexivity. Qed.

(** An attempt whose mode change is never notified does not return, and
    the grab stays held. *)
Example attempt_blocks_holding_grab :
  exists w', sync_displays (Sample.env [] Sample.fresh_addr 4 2) Sample.randr_base
               (Sample.world 2 2 [] [Sample.damage]) = Blocks w' /\
    grabbed w' = true /\
    trace w' = [OpMGetDisplayInfo; OpXCheckIfEvent; OpXGrabServer; OpXDisplayWidth;
                OpXDisplayHeight; OpXRRGetScreenResources; OpXDisplayHeight;
                OpXDisplayHeightMM; OpXRRGetCrtcInfo; OpXRRSetCrtcConfig;
                OpXRRSetScreenSize; OpXIfEvent].
Proof. eexists. repeat split; vm_compute; reflexivity. Qed.

(** The attempt whose confirmation fails. *)
Lemma grab_released_once_witness :
  let w := Sample.world 2 2 []
             [Sample.screen_change 2 2; Sample.screen_change 3 3;
              Sample.screen_change 2 2] in
  let o := sync_displays (Sample.env [] Sample.fresh_addr 4 2) Sample.randr_base w in
  exists t, trace (world_of o) = trace w ++ t /\
    geometry_under_grab false t = true /\
    ((t = [OpMGetDisplayInfo] /\ exists w', o = Ret (-1) w') \/
     exists pre mid,
       forallb pre_grab_op pre = true /\
       forallb (fun op => negb (geometry_op op) && negb (grab_op op)) pre = true /\
       forallb (fun op => negb (grab_op op)) mid = true /\
       match o with
       | Ret _ w' =>
           t = pre ++ OpXGrabServer :: mid ++ [OpXUngrabServer] /\ grabbed w' = false
       | Blocks _ | Crash _ | Fuel _ => t = pre ++ OpXGrabServer :: mid
       end).
Proof.
  intros w o.
  apply (grab_released_once (Sample.env [] Sample.fresh_addr 4 2) Sample.randr_base w).
Defined.

(** C3, as the code has it.  In every attempt, whatever its outcome,
    each poll of the confirmation wait is made while the server grab is
    held: [x_sync_mode] runs between the grab and its release, and the
    release comes only after the wait has returned. *)
Theorem confirmation_wait_holds_grab env base w :
  exists t, trace (world_of (sync_displays env base w)) = trace w ++ t /\
    polls_under_grab false t = true.
Proof.
  destruct (sync_displays_shape env base w) as (t & Ht & Hshape).
  exists t. split; [done|].
  destruct Hshape as [[-> _]|(pre & mid & Hpre & Hmid & Hshape)]; [done|].
  assert (polls_under_grab false (pre ++ OpXGrabServer :: mid ++ [OpXUngrabServer]) = true
          /\ polls_under_grab false (pre ++ OpXGrabServer :: mid) = true) as [H1 H2].
  { rewrite !polls_under_grab_pre by done. simpl.
    rewrite polls_under_grab_mid by done.
    rewrite <- (app_nil_r mid), polls_under_grab_mid by done. done. }
  destruct (sync_displays env base w); [destruct Hshape as [-> _]|..]; by subst.
Qed.

(** C3 as the spec has it fails: in the attempt that applies the 4x2
    mode, the poll is made before the release. *)
Lemma confirmation_wait_not_outside_grab :
  let o := sync_displays (Sample.env [] Sample.fresh_addr 4 2) Sample.randr_base
             (Sample.world 2 2 [] [Sample.screen_change 4 2]) in
  OpXRRSetScreenSize ∈ trace (world_of o) /\
  OpXIfEvent ∈ trace (world_of o) /\
  polls_outside_grab false (trace (world_of o)) = false.
Proof.
  intros o. split; [|split].
  - apply list_elem_of_In. vm_compute. tauto.
  - apply list_elem_of_In. vm_compute. tauto.
  - vm_compute. reflexivity.
Qed.

(** The calls of an attempt that takes neither the mode nor the wait. *)
Lemma quiet_attempt (pre rest : list Op) :
  forallb pre_grab_op pre = true ->
  forallb (fun op => negb (apply_or_wait_op op)) rest = true ->
  forallb (fun op => negb (apply_or_wait_op op)) (pre ++ rest) = true.
Proof.
  intros Hpre Hrest. rewrite forallb_app, Hrest, andb_true_r.
  revert Hpre. apply forallb_impl. by intros [].
Qed.

(** C9.  When the size the destination display asks for is the size of
    the source screen as read under the grab (after the refresh of step
    2), the attempt returns 0 and makes no call that applies a mode, sets
    the screen size or polls for a confirmation: under the grab it only
    reads the width and the height.  The server's geometry and mode, the
    local configuration and the events are as they were at the grab. *)
Theorem already_synced_is_noop env base w tw th w1 w2 :
  target_size env w = Ret (Some (tw, th)) w1 ->
  resync_pending env base w1 = Ret tt w2 ->
  u32 (g_width (disp w2)) = tw -> u32 (g_height (disp w2)) = th ->
  exists w' t, sync_displays env base w = Ret 0 w' /\
    trace w' = trace w ++ t /\
    forallb (fun op => negb (apply_or_wait_op op)) t = true /\
    trace w' = trace w2 ++ [OpXGrabServer; OpXDisplayWidth; OpXDisplayHeight;
                            OpXUngrabServer] /\
    disp w' = disp w2 /\ srv w' = srv w /\ srv_mode w' = srv_mode w /\
    queue w' = queue w2 /\ later w' = later w2 /\ grabbed w' = false.
Proof.
  intros H1 H2 Hw Hh.
  destruct (before_grab env base w _ w1 w2 H1 H2) as (pre & Hpre & Hops & Hsrv & Hmode).
  unfold sync_displays.
  rewrite (bind_Ret _ _ _ _ _ H1). cbv beta iota.
  rewrite (bind_Ret _ _ _ _ _ H2).
  unfold bind, XGrabServer, XDisplayWidth, XDisplayHeight, XUngrabServer, ret. cbn.
  rewrite Hw, Hh, !Z.eqb_refl. cbn.
  eexists _, (pre ++ [OpXGrabServer; OpXDisplayWidth; OpXDisplayHeight; OpXUngrabServer]).
  split; [done|]. cbn. rewrite Hpre, <- !app_assoc. cbn.
  repeat split; try done. by apply quiet_attempt.
Qed.

(** A 2x2 screen and a destination display of 2x2. *)
Lemma already_synced_is_noop_witness :
  let env := Sample.env [] Sample.fresh_addr 2 2 in
  let w := Sample.world 2 2 [Sample.damage] [] in
  exists w' t, sync_displays env Sample.randr_base w = Ret 0 w' /\
    trace w' = trace w ++ t /\
    forallb (fun op => negb (apply_or_wait_op op)) t = true /\
    srv w' = srv w /\ srv_mode w' = srv_mode w.
Proof.
  intros env w.
  destruct (already_synced_is_noop env Sample.randr_base w 2 2
              (world_of (target_size env w))
              (world_of (resync_pending env Sample.randr_base
                           (world_of (target_size env w)))))
    as (w' & t & Hrun & Ht & Hquiet & _ & _ & Hsrv & Hmode & _);
    try (vm_compute; reflexivity).
  exists w', t. done.
Defined.

(** C8, as the code has it.  When the size asked for differs from the
    size of the source screen and no advertised mode has that size, the
    attempt returns -1 (the value it also returns when a mode set or the
    confirmation fails), and makes no call that applies a mode, sets the
    screen size or polls: under the grab it reads the size, takes the
    screen resources and frees them.  The server's geometry and mode and
    the local configuration are as they were at the grab. *)
Theorem no_matching_mode_keeps_geometry env base w tw th w1 w2 sr :
  target_size env w = Ret (Some (tw, th)) w1 ->
  resync_pending env base w1 = Ret tt w2 ->
  u32 (g_width (disp w2)) <> tw \/ u32 (g_height (disp w2)) <> th ->
  env_resources env (calls OpXRRGetScreenResources w2) = Some sr ->
  (forall m, m ∈ modes sr -> ~ (mode_width m = tw /\ mode_height m = th)) ->
  exists w' t, sync_displays env base w = Ret (-1) w' /\
    trace w' = trace w ++ t /\
    forallb (fun op => negb (apply_or_wait_op op)) t = true /\
    trace w' = trace w2 ++ [OpXGrabServer; OpXDisplayWidth; OpXDisplayHeight;
                            OpXRRGetScreenResources; OpXRRFreeScreenResources;
                            OpXUngrabServer] /\
    disp w' = disp w2 /\ srv w' = srv w /\ srv_mode w' = srv_mode w /\
    grabbed w' = false.
Proof.
  intros H1 H2 Hne Hsr Habsent.
  destruct (before_grab env base w _ w1 w2 H1 H2) as (pre & Hpre & Hops & Hsrv & Hmode).
  unfold sync_displays.
  rewrite (bind_Ret _ _ _ _ _ H1). cbv beta iota.
  rewrite (bind_Ret _ _ _ _ _ H2).
  unfold bind, XGrabServer, XDisplayWidth, XDisplayHeight, XUngrabServer, ret. cbn.
  assert (Hneeded : negb (u32 (g_width (disp w2)) =? tw)
                    || negb (u32 (g_height (disp w2)) =? th) = true).
  { apply orb_true_iff. rewrite !negb_true_iff, !Z.eqb_neq. done. }
  rewrite Hneeded. unfold XRRGetScreenResources.
  rewrite !calls_log_ne by discriminate.
  replace (calls OpXRRGetScreenResources (set_grabbed true (log OpXGrabServer w2)))
    with (calls OpXRRGetScreenResources w2)
    by (symmetry; apply (calls_log_ne _ OpXGrabServer); discriminate).
  rewrite Hsr. cbn. rewrite (proj2 (find_mode_None _ _ _) Habsent). cbn.
  eexists _, (pre ++ [OpXGrabServer; OpXDisplayWidth; OpXDisplayHeight;
                      OpXRRGetScreenResources; OpXRRFreeScreenResources;
                      OpXUngrabServer]).
  split; [done|]. cbn. rewrite Hpre, <- !app_assoc. cbn.
  repeat split; try done. by apply quiet_attempt.
Qed.

(** A 2x2 screen, modes of 2x2 and 4x2, and a destination display of
    3x3. *)
Lemma no_matching_mode_keeps_geometry_witness :
  let env := Sample.env [] Sample.fresh_addr 3 3 in
  let w := Sample.world 2 2 [] [] in
  exists w' t, sync_displays env Sample.randr_base w = Ret (-1) w' /\
    trace w' = trace w ++ t /\
    forallb (fun op => negb (apply_or_wait_op op)) t = true /\
    srv w' = srv w /\ srv_mode w' = srv_mode w.
Proof.
  intros env w.
  destruct (no_matching_mode_keeps_geometry env Sample.randr_base w 3 3
              (world_of (target_size env w))
              (world_of (resync_pending env Sample.randr_base
                           (world_of (target_size env w))))
              Sample.resources)
    as (w' & t & Hrun & Ht & Hquiet & _ & _ & Hsrv & Hmode & _);
    try (vm_compute; reflexivity).
  - left. vm_compute. discriminate.
  - intros m Hm [Hw Hh]. apply list_elem_of_In in Hm. simpl in Hm.
    destruct Hm as [<-|[<-|[]]]; vm_compute in Hw; discriminate.
  - exists w', t. done.
Defined.

(** C8 as the spec has it fails: the attempt that finds no 3x3 mode and
    the attempt whose 4x2 mode is never confirmed return the same value,
    so nothing computed from the return value tells [UsingCurrentMode]
    from [Failed]. *)
Lemma no_match_same_code_as_failed :
  ~ exists decode : Z -> Outcome,
      (forall r w', sync_displays (Sample.env [] Sample.fresh_addr 3 3) Sample.randr_base
                      (Sample.world 2 2 [] []) = Ret r w' ->
                    decode r = UsingCurrentMode) /\
      (forall r w', sync_displays (Sample.env [] Sample.fresh_addr 4 2) Sample.randr_base
                      (Sample.world 2 2 []
                         [Sample.screen_change 2 2; Sample.screen_change 3 3;
                          Sample.screen_change 2 2]) = Ret r w' ->
                    decode r = Failed).
Proof.
  intros (decode & Hnone & Hfailed).
  destruct exit_no_matching_mode as (wa & Ha & _).
  destruct exit_confirmation_failure as (wb & Hb & _).
  specialize (Hnone _ _ Ha). specialize (Hfailed _ _ Hb). congruence.
Qed.

(** ** Frame render *)

(** C10, as the code has it.  When the lock is taken and the fetch of
    the image fails, the full frame is still copied, from what the shared
    surface held before the call (the fetch changed nothing), the unlock
    is called, and the fetch failure is not reported: the call returns 0
    when the unlock succeeds and -1 when the unlock fails. *)
Theorem render_root_ignores_fetch_failure env buf ximg w img buf' :
  env_fails env OpMLockBuffer (calls OpMLockBuffer w) = false ->
  env_fails env OpXShmGetImage (calls OpXShmGetImage w) = true ->
  images w !! ximg = Some img ->
  copy_ximg_to_buffer_mlocked buf img (default [] (mappings w !! data img)) = Some (0, buf') ->
  exists w', render_root env buf ximg w = Ret (unlock_code env w, buf') w' /\
    trace w' = trace w ++ [OpMLockBuffer; OpXShmGetImage; OpMUnlockBuffer] /\
    mappings w' = mappings w /\ images w' = images w.
Proof.
  intros Hlock Hfetch Himg Hcopy.
  unfold render_root, XShmGetImage, deref, invoke, bind, ret, unlock_code.
  cbn -[copy_ximg_to_buffer_mlocked default].
  rewrite Hlock. cbn -[copy_ximg_to_buffer_mlocked default]. rewrite Himg.
  cbn -[copy_ximg_to_buffer_mlocked default].
  rewrite calls_log_ne by discriminate. rewrite Hfetch.
  cbn -[copy_ximg_to_buffer_mlocked default].
  rewrite Himg. cbn [mappings log]. rewrite Hcopy. cbn.
  rewrite !calls_log_ne by discriminate.
  destruct (env_fails env OpMUnlockBuffer _); cbn;
    eexists; (split; [done|]); cbn; rewrite <- !app_assoc; done.
Qed.

(** The fetch fails, the unlock succeeds: the rows of the earlier frame
    reach the buffer and the call returns 0. *)
Lemma render_root_ignores_fetch_failure_witness :
  let env := Sample.env [(OpXShmGetImage, 0%nat)] Sample.fresh_addr 2 2 in
  exists buf' w',
    render_root env Sample.capture_buffer 0 Sample.capture_world = Ret (0, buf') w' /\
    bits buf' = Sample.ramp 1 8 ++ replicate 4 x00 ++ Sample.ramp 9 8 ++ replicate 4 x00 /\
    trace w' = [OpMLockBuffer; OpXShmGetImage; OpMUnlockBuffer].
Proof.
  intros env.
  destruct (render_root_ignores_fetch_failure env Sample.capture_buffer 0
              Sample.capture_world (mkXImage 2 2 32 8 0)
              (mkMBuffer 2 2 3
                 (Sample.ramp 1 8 ++ replicate 4 x00 ++ Sample.ramp 9 8 ++ replicate 4 x00)))
    as (w' & Hrun & Ht & _); try (vm_compute; reflexivity).
  eexists _, w'. split; [exact Hrun|]. split; [reflexivity|exact Ht].
Defined.

(** C10 as stated fails: when the unlock fails too, the call returns
    -1. *)
Lemma render_root_reports_unlock_failure :
  let env := Sample.env [(OpXShmGetImage, 0%nat); (OpMUnlockBuffer, 0%nat)]
               Sample.fresh_addr 2 2 in
  env_fails env OpMLockBuffer 0 = false /\
  env_fails env OpXShmGetImage 0 = true /\
  exists buf' w',
    render_root env Sample.capture_buffer 0 Sample.capture_world = Ret (-1, buf') w'.
Proof.
  intros env. split; [reflexivity|]. split; [reflexivity|].
  eexists _, _. vm_compute. reflexivity.
Qed.

(** With a fetch that succeeds the buffer gets the new frame instead. *)
Example render_root_fresh_frame :
  exists buf' w',
    render_root (Sample.env [] Sample.fresh_addr 2 2) Sample.capture_buffer 0
      Sample.capture_world = Ret (0, buf') w' /\
    bits buf' = replicate 8 xff ++ replicate 4 x00 ++ replicate 8 xff ++ replicate 4 x00.
Proof. eexists _, _. split; vm_compute; reflexivity. Qed.

(** ** Shared frame source *)

(** Whatever way [xshm_init] fails once the image structure exists, the
    structure is still allocated when it returns [NULL]: no failure path
    destroys it. *)
Lemma xshm_init_failure_keeps_image env si w si' w' :
  xshm_init env si w = Ret (None, si') w' ->
  env_fails env OpXShmCreateImage (calls OpXShmCreateImage w) = false ->
  let a := match images w !! env_image_addr env (calls OpXShmCreateImage w) with
           | Some _ => next_image w
           | None => env_image_addr env (calls OpXShmCreateImage w)
           end in
  is_Some (images w' !! a).
Proof.
  intros Hrun Hcreate a. revert Hrun.
  unfold xshm_init, XDisplayWidth, XDisplayHeight, XShmCreateImage, bind. cbn.
  rewrite !calls_log_ne by discriminate. rewrite Hcreate. fold a.
  unfold deref, shmget, shmat, set_image_data, XShmAttach, cleanup_shm, shmdt,
    shmctl_rmid, invoke, bind, ret. cbn.
  rewrite lookup_insert_eq. cbn.
  repeat (case_match; simplify_eq; cbn in *; rewrite ?lookup_insert_eq in *;
          simplify_eq; cbn in * );
    intros; simplify_eq; cbn; rewrite ?lookup_insert_eq; eauto.
Qed.

(** A failed attach is not noticed: [shmat] returns [(void * ) -1], the
    test [shmaddr < 0] on that address is false, and when the server
    accepts the segment the creation succeeds, with an image whose data
    pointer is [(void * ) -1] and with the segment still there. *)
Lemma xshm_init_misses_attach_failure env si w :
  0 <= next_shmid w ->
  env_fails env OpXShmCreateImage (calls OpXShmCreateImage w) = false ->
  env_fails env OpShmget (calls OpShmget w) = false ->
  env_fails env OpShmat (calls OpShmat w) = true ->
  env_fails env OpXShmAttach (calls OpXShmAttach w) = false ->
  exists a img si' w',
    xshm_init env si w = Ret (Some a, si') w' /\
    shmaddr si' = MAP_FAILED /\ shmid si' = next_shmid w /\
    images w' !! a = Some img /\ data img = MAP_FAILED /\
    is_Some (segments w' !! next_shmid w) /\
    mappings w' = mappings w /\
    trace w' = trace w ++ [OpXDisplayWidth; OpXDisplayHeight; OpXShmCreateImage;
                           OpShmget; OpShmat; OpXShmAttach].
Proof.
  intros Hid Hcreate Hget Hat Hattach.
  unfold xshm_init, XDisplayWidth, XDisplayHeight, XShmCreateImage, bind. cbn.
  calls_simpl. rewrite Hcreate.
  unfold deref, shmget, shmat, set_image_data, XShmAttach, invoke, bind, ret. cbn.
  rewrite lookup_insert_eq. cbn.
  calls_simpl. rewrite Hget. cbn.
  rewrite (proj2 (Z.ltb_ge (next_shmid w) 0)) by lia.
  calls_simpl. rewrite Hat. cbn.
  rewrite lookup_insert_eq. cbn.
  change (MAP_FAILED <? 0) with false. cbn. calls_simpl. rewrite Hattach. cbn.
  eexists _, _, _, _. split; [done|]. cbn.
  rewrite !lookup_insert_eq, <- !app_assoc. repeat split; eauto.
Qed.

(** When the server then refuses the segment, the cleanup starts with a
    detach of [(void * ) -1], which fails, and returns before it removes
    the segment. *)
Lemma xshm_init_attach_failure_keeps_segment env si w :
  0 <= next_shmid w ->
  mappings w !! MAP_FAILED = None ->
  env_fails env OpXShmCreateImage (calls OpXShmCreateImage w) = false ->
  env_fails env OpShmget (calls OpShmget w) = false ->
  env_fails env OpShmat (calls OpShmat w) = true ->
  env_fails env OpXShmAttach (calls OpXShmAttach w) = true ->
  exists si' w',
    xshm_init env si w = Ret (None, si') w' /\
    is_Some (segments w' !! next_shmid w) /\
    trace w' = trace w ++ [OpXDisplayWidth; OpXDisplayHeight; OpXShmCreateImage;
                           OpShmget; OpShmat; OpXShmAttach; OpShmdt].
Proof.
  intros Hid Hmap Hcreate Hget Hat Hattach.
  unfold xshm_init, XDisplayWidth, XDisplayHeight, XShmCreateImage, bind. cbn.
  calls_simpl. rewrite Hcreate.
  unfold deref, shmget, shmat, set_image_data, XShmAttach, cleanup_shm, shmdt,
    invoke, bind, ret. cbn.
  rewrite lookup_insert_eq. cbn.
  calls_simpl. rewrite Hget. cbn.
  rewrite (proj2 (Z.ltb_ge (next_shmid w) 0)) by lia.
  calls_simpl. rewrite Hat. cbn.
  rewrite lookup_insert_eq. cbn.
  change (MAP_FAILED <? 0) with false. cbn. calls_simpl. rewrite Hattach. cbn.
  rewrite Hmap. cbn.
  eexists _, _. split; [done|]. cbn.
  rewrite !lookup_insert_eq, <- !app_assoc. split; eauto.
Qed.

(** C7 fails on the code.  Evaluated on a 2x2 screen with nothing
    allocated before: (1) [shmget] fails: [xshm_init] returns [NULL] and
    the image it created is still allocated; (2) [shmat] fails: the
    failure is not detected, and [xshm_init] returns the image, its data
    pointer [(void * ) -1], the segment still there; (3) [shmat] and
    [XShmAttach] fail: [xshm_init] returns [NULL], and the segment and
    the image are still there, the cleanup having stopped at the detach;
    (4) only [XShmAttach] fails: mapping and segment are released, the
    image is not. *)
Theorem xshm_init_failure_paths :
  let w := Sample.world 2 2 [] [] in
  let si := Sample.capture_shminfo in
  (exists si' w',
     xshm_init (Sample.env [(OpShmget, 0%nat)] Sample.same_addr 2 2) si w
       = Ret (None, si') w' /\
     is_Some (images w' !! 0%nat)) /\
  (exists si' w',
     xshm_init (Sample.env [(OpShmat, 0%nat)] Sample.same_addr 2 2) si w
       = Ret (Some 0%nat, si') w' /\
     data <$> images w' !! 0%nat = Some MAP_FAILED /\
     segments w' !! 0 = Some 16 /\ mappings w' = ∅) /\
  (exists si' w',
     xshm_init (Sample.env [(OpShmat, 0%nat); (OpXShmAttach, 0%nat)] Sample.same_addr 2 2)
       si w = Ret (None, si') w' /\
     segments w' !! 0 = Some 16 /\ is_Some (images w' !! 0%nat) /\
     trace w' = [OpXDisplayWidth; OpXDisplayHeight; OpXShmCreateImage; OpShmget;
                 OpShmat; OpXShmAttach; OpShmdt]) /\
  (exists si' w',
     xshm_init (Sample.env [(OpXShmAttach, 0%nat)] Sample.same_addr 2 2) si w
       = Ret (None, si') w' /\
     segments w' = ∅ /\ mappings w' = ∅ /\ is_Some (images w' !! 0%nat)).
Proof.
  intros w si. repeat split.
  - eexists _, _. split; [vm_compute; reflexivity|]. vm_compute. eauto.
  - eexists _, _. split; [vm_compute; reflexivity|]. repeat split; vm_compute; reflexivity.
  - eexists _, _. split; [vm_compute; reflexivity|]. repeat split; vm_compute; eauto.
  - eexists _, _. split; [vm_compute; reflexivity|]. repeat split; vm_compute; eauto.
Qed.

(** ** Resize *)

(** The cleanup destroys the image and creates none. *)
Lemma xshm_cleanup_images env si ximg w r w' :
  xshm_cleanup env si ximg w = Ret r w' ->
  images w' = delete ximg (images w) /\ next_image w' = next_image w /\
  calls OpXShmCreateImage w' = calls OpXShmCreateImage w.
Proof.
  unfold xshm_cleanup, XShmDetach, XDestroyImage, cleanup_shm, shmdt, shmctl_rmid,
    invoke, bind, ret. cbn.
  repeat (case_match; simplify_eq; cbn in * ); intros; simplify_eq; cbn;
    calls_simpl; done.
Qed.

(** The creation touches no image but the one it allocates. *)
Lemma xshm_init_other_images env si w r si' w' x :
  xshm_init env si w = Ret (r, si') w' ->
  x <> match images w !! env_image_addr env (calls OpXShmCreateImage w) with
       | Some _ => next_image w
       | None => env_image_addr env (calls OpXShmCreateImage w)
       end ->
  images w' !! x = images w !! x.
Proof.
  unfold xshm_init, XDisplayWidth, XDisplayHeight, XShmCreateImage, bind. cbn.
  calls_simpl. set (a := match images w !! _ with Some _ => _ | None => _ end).
  unfold deref, shmget, shmat, set_image_data, XShmAttach, cleanup_shm, shmdt,
    shmctl_rmid, invoke, bind, ret. cbn.
  repeat (case_match; simplify_eq; cbn in *; rewrite ?lookup_insert_eq in *;
          simplify_eq; cbn in * );
    intros; simplify_eq; cbn; rewrite ?lookup_insert_ne by done; done.
Qed.

(** [resize_shm] destroys the image of its caller and keeps the new one
    to itself: unless the allocator happens to put the new structure at
    the address of the old one, the pointer the caller holds is the
    pointer of a destroyed image when the resize returns. *)
Lemma resize_shm_caller_image env ximg si w img r si' w' :
  images w !! ximg = Some img ->
  (ximg < next_image w)%nat ->
  ximg_width img <> g_width (disp w) \/ ximg_height img <> g_height (disp w) ->
  env_image_addr env (calls OpXShmCreateImage w) <> ximg ->
  resize_shm env ximg si w = Ret (r, si') w' ->
  images w' !! ximg = None.
Proof.
  intros Himg Hlt Hdiff Haddr.
  assert (Hneeded : negb (ximg_width img =? g_width (disp w))
                    || negb (ximg_height img =? g_height (disp w)) = true).
  { apply orb_true_iff. rewrite !negb_true_iff, !Z.eqb_neq. done. }
  unfold resize_shm, XDisplayWidth, XDisplayHeight, deref.
  unfold bind at 1 2 3. cbn. rewrite Himg. cbn. rewrite Hneeded.
  intros (rc & w1 & Hclean & (res & w2 & Hinit & Hret)%bind_returns)%bind_returns.
  destruct res as [ximg' si2]. unfold ret in Hret. injection Hret as _ _ <-.
  apply xshm_cleanup_images in Hclean as (Him & Hnext & Hcalls).
  cbn in Him, Hnext. rewrite !calls_log_ne in Hcalls by discriminate.
  rewrite (xshm_init_other_images _ _ _ _ _ _ ximg Hinit).
  - rewrite Him. apply lookup_delete_eq.
  - rewrite Hcalls, Hnext. case_match; [lia|congruence].
Qed.

(** C6 fails on the code.  A 2x2 capture is running and the screen has
    become 4x2.  The reconcile succeeds ([resize_shm] and
    [resize_mbuffer] return 0) and the buffer is 4x2, but the image
    pointer [main] holds (address 0) is now the pointer of a destroyed
    image; the 4x2 image [resize_shm] created sits at another address
    that [main] never learns.  The next capture reads the destroyed
    image. *)
Theorem reconcile_leaves_stale_image :
  let env := Sample.env [] Sample.fresh_addr 4 2 in
  let w := set_disp (mkGeometry 4 2 4 2) Sample.capture_world in
  exists si' w1 root' w2,
    resize_shm env 0 Sample.capture_shminfo w = Ret (0, si') w1 /\
    resize_mbuffer env Sample.capture_buffer w1 = Ret (0, root') w2 /\
    buf_width root' = 4 /\ buf_height root' = 2 /\
    images w2 !! 0%nat = None /\
    (ximg_width <$> images w2 !! 1%nat) = Some 4 /\
    (ximg_height <$> images w2 !! 1%nat) = Some 2 /\
    exists w3, render_root env root' 0 w2 = Crash w3.
Proof.
  intros env w. eexists _, _, _, _.
  split; [vm_compute; reflexivity|].
  split; [vm_compute; reflexivity|].
  repeat split; try (vm_compute; reflexivity).
  eexists. vm_compute. reflexivity.
Qed.

(** Only an allocator that reuses the address hides the slip. *)
Example reconcile_with_reused_address :
  let env := Sample.env [] Sample.same_addr 4 2 in
  let w := set_disp (mkGeometry 4 2 4 2) Sample.capture_world in
  exists si' w1,
    resize_shm env 0 Sample.capture_shminfo w = Ret (0, si') w1 /\
    (ximg_width <$> images w1 !! 0%nat) = Some 4.
Proof. intros env w. eexists _, _. split; vm_compute; reflexivity. Qed.

(** ** Main loop *)

Lemma preserves_mono (R R' : World -> World -> Prop) {A} (m : M A) :
  (forall w w', R w w' -> R' w w') -> preserves R m -> preserves R' m.
Proof. intros HRR Hm w. apply HRR, Hm. Qed.

(** The calls a negotiation attempt can make. *)
Lemma sync_displays_calls env base :
  preserves (extends (fun op => pre_grab_op op || under_grab_op op || grab_op op))
    (sync_displays env base).
Proof.
  unfold sync_displays, target_size, resync_pending.
  extends_tac;
    (eapply preserves_mono; [|first [apply x_set_mode_calls | apply x_sync_mode_calls]]);
    intros ? ?; apply extends_mono; intros op Hop; rewrite Hop;
    by rewrite orb_true_r.
Qed.

Lemma xshm_init_calls env si :
  preserves (extends (fun op => negb (bool_decide (op = OpXDamageCreate))))
    (xshm_init env si).
Proof. unfold xshm_init, cleanup_shm. extends_tac. Qed.

Lemma only_zero_bind {A} (m : M A) (k : A -> M Z) :
  (forall a, only_zero (k a)) -> only_zero (bind m k).
Proof. intros Hk w r w' (a & w1 & _ & Hrun)%bind_returns. by eapply Hk. Qed.

Lemma early_or_zero_bind {A} (m : M A) (k : A -> M Z) :
  preserves (extends (fun op => negb (bool_decide (op = OpXDamageCreate)))) m ->
  (forall a, early_or_zero (k a)) -> early_or_zero (bind m k).
Proof.
  intros Hm Hk w r w' (a & w1 & Hrun1 & Hrun)%bind_returns.
  specialize (Hm w). rewrite Hrun1 in Hm. simpl in Hm.
  destruct (Hk a w1 r w' Hrun) as [[-> Hcalls] | ->]; [left|by right].
  split; [done|]. rewrite Hcalls. by apply calls_extends.
Qed.

Lemma early_or_zero_quiet (m : M Z) :
  preserves (extends (fun op => negb (bool_decide (op = OpXDamageCreate)))) m ->
  (forall w r w', m w = Ret r w' -> r = -1) -> early_or_zero m.
Proof.
  intros Hm Hr w r w' Hrun. left. split; [by eapply Hr|].
  specialize (Hm w). rewrite Hrun in Hm. by apply calls_extends.
Qed.

Lemma only_zero_early (m : M Z) : only_zero m -> early_or_zero m.
Proof. intros Hm w r w' Hrun. right. by eapply Hm. Qed.

Lemma main_exit_codes env fuel : early_or_zero (main env fuel).
Proof.
  unfold main. cbv zeta.
  repeat first
    [ progress cbv beta
    | apply early_or_zero_bind; [solve [extends_tac]|intros ?]
    | apply early_or_zero_bind; [apply xshm_init_calls|intros ?]
    | apply early_or_zero_bind;
        [eapply preserves_mono; [|apply sync_displays_calls];
         intros ? ?; apply extends_mono; by intros []|intros ?]
    | match goal with
      | |- early_or_zero (if negb ?b then _ else _) => destruct b; cbn [negb]
      | |- early_or_zero (match ?x with _ => _ end) => destruct x
      end ].
  all: try (apply early_or_zero_quiet;
            [solve [unfold cleanup_1; extends_tac]
            |intros w r w'; unfold cleanup_1, invoke, bind, ret; cbn; congruence]).
  apply only_zero_early.
  repeat (apply only_zero_bind; intros ?).
  intros w r w' Hrun. unfold ret in Hrun. congruence.
Qed.

(** C5 fails on the code.  A 2x2 capture starts, renders one frame, and
    the screen becomes 4x2 while the destination display cannot be
    queried.  (1) The buffer resize fails: [main] leaves the loop, shuts
    down in order and returns 0.  (2) The shared-memory rebuild fails (no
    segment): the same.  The exit status of the process is 0 in both
    runs; [err] is set on the failures before the loop only. *)
Theorem main_exits_zero_on_resize_failure :
  let w := Sample.world 2 2 [] [Sample.damage; Sample.screen_change 4 2] in
  (exists w',
     main (Sample.env [(OpMGetDisplayInfo, 1%nat); (OpMResizeBuffer, 0%nat)]
             Sample.same_addr 2 2) (enough_fuel w) w = Ret 0 w' /\
     last (trace w') = Some OpXCloseDisplay /\ events_left w' = 0%nat) /\
  (exists w',
     main (Sample.env [(OpMGetDisplayInfo, 1%nat); (OpShmget, 1%nat)]
             Sample.same_addr 2 2) (enough_fuel w) w = Ret 0 w' /\
     last (trace w') = Some OpXCloseDisplay /\ events_left w' = 0%nat) /\
  exit_status 0 = 0.
Proof.
  intros w. split; [|split]; [| |reflexivity];
    eexists; (split; [vm_compute; reflexivity|]); split; vm_compute; reflexivity.
Qed.

(** A failure before the loop does set the code: without the shared
    memory extension the exit status is 255. *)
Example main_exits_nonzero_on_missing_extension :
  exists w',
    main (Sample.env [(OpXShmQueryExtension, 0%nat)] Sample.same_addr 2 2) 1
      (Sample.world 2 2 [] []) = Ret (-1) w' /\
    exit_status (-1) = 255.
Proof. eexists. split; vm_compute; reflexivity. Qed.

(** The slip of [resize_shm] in a whole run: after the screen has become
    4x2, the next damage event makes [main] render from the image it
    still points to, which is destroyed. *)
Example main_renders_from_destroyed_image :
  let w := Sample.world 2 2 [] [Sample.screen_change 4 2; Sample.damage] in
  exists w',
    main (Sample.env [(OpMGetDisplayInfo, 1%nat)] Sample.fresh_addr 2 2)
      (enough_fuel w) w = Crash w' /\
    last (trace w') = Some OpMLockBuffer.
Proof. intros w. eexists. split; vm_compute; reflexivity. Qed.

(** ** The event loop has enough iterations *)

Lemma take_event_length p q ev q' :
  take_event p q = Some (ev, q') -> length q = S (length q').
Proof.
  revert ev q'. induction q as [|e q IH]; simpl; intros ev q' H; [done|].
  destruct (p e); [by simplify_eq|].
  destruct (take_event p q) as [[ev' q'']|]; simplify_eq. simpl.
  by rewrite (IH _ _ eq_refl).
Qed.

Lemma wait_event_length p l skipped ev rest :
  wait_event p l = Some (skipped, ev, rest) ->
  length l = S (length skipped + length rest).
Proof.
  revert skipped ev rest. induction l as [|e l IH]; simpl; intros sk ev rest H; [done|].
  destruct (p e); [by simplify_eq|].
  destruct (wait_event p l) as [[[sk' ev'] rest']|]; simplify_eq. simpl.
  by rewrite (IH _ _ _ eq_refl).
Qed.

Lemma tame_ret {A} (a : A) : tame (ret a).
Proof. intros w. split; [unfold consumes; simpl; lia|done]. Qed.

Lemma tame_crash {A} : tame (@crash A).
Proof. intros w. split; [unfold consumes; simpl; lia|done]. Qed.

Lemma tame_bind {A B} (m : M A) (k : A -> M B) :
  tame m -> (forall a, tame (k a)) -> tame (bind m k).
Proof.
  intros Hm Hk w. destruct (Hm w) as [Hc Hf]. unfold bind.
  destruct (m w) as [a w1|w1|w1|w1]; simpl in *; try done.
  - destruct (Hk a w1) as [Hc' Hf']. split; [|done]. unfold consumes in *. lia.
  - by destruct (Hf w1).
Qed.

(** A step that leaves the events alone. *)
Lemma tame_step {A} (m : M A) :
  (forall w, queue (world_of (m w)) = queue w /\ later (world_of (m w)) = later w /\
     forall w', m w <> Fuel w') ->
  tame m.
Proof.
  intros Hm w. destruct (Hm w) as (Hq & Hl & Hf). split; [|done].
  unfold consumes, events_left. rewrite Hq, Hl. lia.
Qed.

Ltac tame_step_tac :=
  apply tame_step; intros w; unfold invoke, bind, ret; cbn;
  repeat case_match; simplify_eq; cbn; repeat split; done.

Lemma tame_invoke env op : tame (invoke env op).
Proof. tame_step_tac. Qed.
Lemma tame_XDisplayWidth : tame XDisplayWidth.
Proof. tame_step_tac. Qed.
Lemma tame_XDisplayHeight : tame XDisplayHeight.
Proof. tame_step_tac. Qed.
Lemma tame_XDisplayHeightMM : tame XDisplayHeightMM.
Proof. tame_step_tac. Qed.
Lemma tame_MGetDisplayInfo env : tame (MGetDisplayInfo env).
Proof. tame_step_tac. Qed.
Lemma tame_XRRUpdateConfiguration env ev : tame (XRRUpdateConfiguration env ev).
Proof. unfold XRRUpdateConfiguration. tame_step_tac. Qed.
Lemma tame_XGrabServer : tame XGrabServer.
Proof. tame_step_tac. Qed.
Lemma tame_XUngrabServer : tame XUngrabServer.
Proof. tame_step_tac. Qed.
Lemma tame_XRRGetCrtcInfo env c : tame (XRRGetCrtcInfo env c).
Proof. apply tame_invoke. Qed.
Lemma tame_XRRSetCrtcConfig env c m : tame (XRRSetCrtcConfig env c m).
Proof. unfold XRRSetCrtcConfig. tame_step_tac. Qed.
Lemma tame_XRRSetScreenSize a b c d : tame (XRRSetScreenSize a b c d).
Proof. tame_step_tac. Qed.
Lemma tame_XRRGetScreenResources env : tame (XRRGetScreenResources env).
Proof. tame_step_tac. Qed.
Lemma tame_XRRFreeScreenResources sr : tame (XRRFreeScreenResources sr).
Proof. tame_step_tac. Qed.
Lemma tame_deref ximg : tame (deref ximg).
Proof. unfold deref. tame_step_tac. Qed.
Lemma tame_set_image_data ximg addr : tame (set_image_data ximg addr).
Proof. unfold set_image_data. tame_step_tac. Qed.
Lemma tame_XShmCreateImage env a b : tame (XShmCreateImage env a b).
Proof. unfold XShmCreateImage. tame_step_tac. Qed.
Lemma tame_XDestroyImage ximg : tame (XDestroyImage ximg).
Proof. unfold XDestroyImage. tame_step_tac. Qed.
Lemma tame_shmget env size : tame (shmget env size).
Proof. unfold shmget. tame_step_tac. Qed.
Lemma tame_shmat env id : tame (shmat env id).
Proof. unfold shmat. tame_step_tac. Qed.
Lemma tame_shmdt addr : tame (shmdt addr).
Proof. unfold shmdt. tame_step_tac. Qed.
Lemma tame_shmctl_rmid id : tame (shmctl_rmid id).
Proof. unfold shmctl_rmid. tame_step_tac. Qed.
Lemma tame_XShmAttach env si : tame (XShmAttach env si).
Proof. unfold XShmAttach. tame_step_tac. Qed.
Lemma tame_XShmDetach env si : tame (XShmDetach env si).
Proof. unfold XShmDetach. tame_step_tac. Qed.
Lemma tame_XShmGetImage env ximg : tame (XShmGetImage env ximg).
Proof. unfold XShmGetImage, deref. tame_step_tac. Qed.
Lemma tame_MCreateBuffer env a b : tame (MCreateBuffer env a b).
Proof. unfold MCreateBuffer. tame_step_tac. Qed.
Lemma tame_MResizeBuffer env a b : tame (MResizeBuffer env a b).
Proof. unfold MResizeBuffer. tame_step_tac. Qed.

(** The two calls that take events take them from the supply. *)
Lemma tame_XCheckIfEvent env p : tame (XCheckIfEvent env p).
Proof.
  intros w. unfold XCheckIfEvent, consumes, events_left.
  pose proof (length_take_le (later w) (env_arrived env (calls OpXCheckIfEvent w))).
  pose proof (length_drop (later w) (env_arrived env (calls OpXCheckIfEvent w))).
  pose proof (length_take (later w) (env_arrived env (calls OpXCheckIfEvent w))).
  destruct (take_event p _) as [[ev q']|] eqn:Hq; cbn; (split; [|done]).
  - apply take_event_length in Hq. rewrite length_app in Hq. lia.
  - rewrite length_app. lia.
Qed.

Lemma tame_XIfEvent p : tame (XIfEvent p).
Proof.
  intros w. unfold XIfEvent, consumes, events_left.
  destruct (take_event p (queue w)) as [[ev q']|] eqn:Hq; cbn.
  - apply take_event_length in Hq. split; [lia|done].
  - destruct (wait_event p (later w)) as [[[sk ev] rest]|] eqn:Hl; cbn.
    + apply wait_event_length in Hl. rewrite length_app. split; [lia|done].
    + rewrite length_app. split; [lia|done].
Qed.

Create HintDb tame discriminated.
#[export] Hint Resolve tame_invoke tame_XDisplayWidth tame_XDisplayHeight
  tame_XDisplayHeightMM tame_MGetDisplayInfo tame_XRRUpdateConfiguration
  tame_XGrabServer tame_XUngrabServer tame_XRRGetCrtcInfo tame_XRRSetCrtcConfig
  tame_XRRSetScreenSize tame_XRRGetScreenResources tame_XRRFreeScreenResources
  tame_deref tame_set_image_data tame_XShmCreateImage tame_XDestroyImage
  tame_shmget tame_shmat tame_shmdt tame_shmctl_rmid tame_XShmAttach
  tame_XShmDetach tame_XShmGetImage tame_MCreateBuffer tame_MResizeBuffer
  tame_XCheckIfEvent tame_XIfEvent : tame.

Ltac tame_tac :=
  repeat first
    [ progress cbv beta zeta
    | apply tame_ret | apply tame_crash
    | solve [eauto with tame]
    | apply tame_bind; [|intros ?]
    | match goal with
      | |- tame (match ?x with _ => _ end) => destruct x
      end ].

Lemma tame_x_sync_mode_loop env n m base : tame (x_sync_mode_loop env n m base).
Proof. induction n as [|n IH]; simpl; tame_tac; apply IH. Qed.

Lemma tame_sync_displays env base : tame (sync_displays env base).
Proof.
  unfold sync_displays, target_size, resync_pending, x_set_mode, x_sync_mode.
  tame_tac; apply tame_x_sync_mode_loop.
Qed.

Lemma tame_xshm_init env si : tame (xshm_init env si).
Proof. unfold xshm_init, cleanup_shm. tame_tac. Qed.

Lemma tame_xshm_cleanup env si ximg : tame (xshm_cleanup env si ximg).
Proof. unfold xshm_cleanup, cleanup_shm. tame_tac. Qed.

Lemma tame_render_root env buf ximg : tame (render_root env buf ximg).
Proof.
  unfold render_root. tame_tac.
  apply tame_step. intros w.
  destruct (copy_ximg_to_buffer_mlocked _ _ _) as [[? ?]|]; repeat split; done.
Qed.

Lemma tame_resize_shm env ximg si : tame (resize_shm env ximg si).
Proof.
  unfold resize_shm. tame_tac;
    first [apply tame_xshm_cleanup | apply tame_xshm_init].
Qed.

Lemma tame_resize_mbuffer env root : tame (resize_mbuffer env root).
Proof. unfold resize_mbuffer. tame_tac. Qed.

Lemma tame_cleanup_1 env err : tame (cleanup_1 env err).
Proof. unfold cleanup_1. tame_tac. Qed.

#[export] Hint Resolve tame_sync_displays tame_xshm_init tame_xshm_cleanup
  tame_render_root tame_resize_shm tame_resize_mbuffer tame_cleanup_1 : tame.

Lemma fuelled_tame n {A} (m : M A) : tame m -> fuelled n m.
Proof. intros Hm w _. apply Hm. Qed.

Lemma fuelled_bind n {A B} (m : M A) (k : A -> M B) :
  tame m -> (forall a, fuelled n (k a)) -> fuelled n (bind m k).
Proof.
  intros Hm Hk w Hw w'. destruct (Hm w) as [Hc Hf]. unfold bind.
  destruct (m w) as [a w1|w1|w1|w1] eqn:Hrun; simpl in *; try done.
  - apply Hk. unfold consumes in Hc. lia.
  - by destruct (Hf w1).
Qed.

Lemma fuelled_then n {A B} (m : M A) (k : A -> M B) :
  fuelled n m -> (forall a, tame (k a)) -> fuelled n (bind m k).
Proof.
  intros Hm Hk w Hw w'. specialize (Hm w Hw). unfold bind.
  destruct (m w) as [a w1|w1|w1|w1]; try done.
  - apply Hk.
  - by destruct (Hm w1).
Qed.

(** [XNextEvent] takes one event away. *)
Lemma fuelled_XNextEvent n {B} (k : XEvent -> M B) :
  (forall ev, fuelled n (k ev)) -> fuelled (S n) (bind XNextEvent k).
Proof.
  intros Hk w Hw w'. unfold bind, XNextEvent. unfold events_left in Hw.
  destruct (queue w) as [|ev q] eqn:Hq; [destruct (later w) as [|ev l] eqn:Hl|];
    try done; apply Hk; unfold events_left; cbn; simpl in Hw; lia.
Qed.

Ltac fuelled_tac :=
  repeat first
    [ progress cbv beta zeta
    | apply fuelled_bind; [solve [eauto with tame]|intros ?]
    | apply fuelled_tame; solve [apply tame_ret | eauto with tame]
    | match goal with
      | |- fuelled _ (match ?x with _ => _ end) => destruct x
      end ].

Lemma event_loop_fuelled env (fuel : nat) : forall l, fuelled fuel (event_loop env fuel l).
Proof.
  induction fuel as [|fuel IH]; intros l.
  - intros w Hw. lia.
  - simpl. apply fuelled_XNextEvent. intros ev. fuelled_tac; apply IH.
Qed.

(** With an iteration for each event there is, and one more, [main]
    never stops for lack of iterations: it returns, blocks waiting for an
    event, or dies. *)
Lemma main_has_enough_fuel env w w' : main env (enough_fuel w) w <> Fuel w'.
Proof.
  assert (Hmain : forall n, fuelled n (main env n)).
  { intros n. unfold main. fuelled_tac.
    apply fuelled_then; [apply event_loop_fuelled|intros ?]. tame_tac. }
  apply Hmain. unfold enough_fuel, events_left. lia.
Qed.

(** * Further properties *)

(** ** Row copy: shape, empty ranges, splitting *)

Lemma memcpy_length dst doff src soff n dst' :
  memcpy dst doff src soff n = Some dst' -> length dst' = length dst.
Proof.
  unfold memcpy. case_bool_decide as Hb; [|done]. intros [= <-].
  destruct Hb as (? & ? & ? & ? & ?).
  rewrite !length_app, length_take, length_drop.
  unfold bytes_at. rewrite length_take, length_drop. lia.
Qed.

Lemma memcpy_nothing dst doff src soff dst' :
  memcpy dst doff src soff 0 = Some dst' -> dst' = dst.
Proof.
  unfold memcpy. case_bool_decide as Hb; [|done]. intros [= <-].
  unfold bytes_at. simpl. rewrite Z.add_0_r. apply take_drop.
Qed.

Lemma copy_rows_from_length buf ximg src rows : forall dst dst',
  copy_rows_from buf ximg src rows dst = Some dst' -> length dst' = length dst.
Proof.
  induction rows as [|y rows IH]; simpl; intros dst dst' H; [by simplify_eq|].
  destruct (copy_row buf ximg src y dst) as [d1|] eqn:Hrow; [|done]. simpl in H.
  rewrite (IH _ _ H). unfold copy_row in Hrow. by eapply memcpy_length.
Qed.

Lemma copy_rows_from_app buf ximg src rows1 rows2 dst :
  copy_rows_from buf ximg src (rows1 ++ rows2) dst =
  dst' ← copy_rows_from buf ximg src rows1 dst; copy_rows_from buf ximg src rows2 dst'.
Proof.
  revert dst. induction rows1 as [|y rows1 IH]; simpl; intros dst; [done|].
  destruct (copy_row buf ximg src y dst) as [d1|]; simpl; [apply IH|done].
Qed.

(** The loop reads the buffer's stride and storage only. *)
Lemma copy_rows_from_stride buf buf' ximg src rows dst :
  stride buf' = stride buf ->
  copy_rows_from buf' ximg src rows dst = copy_rows_from buf ximg src rows dst.
Proof.
  intros Hs. revert dst. induction rows as [|y rows IH]; simpl; intros dst; [done|].
  unfold copy_row, buf_bytes_per_line. rewrite Hs.
  destruct (memcpy _ _ _ _ _); simpl; [apply IH|done].
Qed.

(** X1.  Whenever a copy of rows is defined it returns 0 and leaves the
    buffer its width, height, stride and number of bytes: the copy writes
    inside the storage and never resizes it. *)
Theorem copy_keeps_buffer_shape buf ximg src row_start row_end r buf' :
  copy_ximg_rows_to_buffer_mlocked buf ximg src row_start row_end = Some (r, buf') ->
  r = 0 /\ buf_width buf' = buf_width buf /\ buf_height buf' = buf_height buf /\
  stride buf' = stride buf /\ length (bits buf') = length (bits buf).
Proof.
  unfold copy_ximg_rows_to_buffer_mlocked. intros H.
  destruct (copy_rows_from _ _ _ _ _) as [dst'|] eqn:Hrows; [|done].
  simpl in H. injection H as <- <-. simpl.
  repeat split. by eapply copy_rows_from_length.
Qed.

Lemma copy_keeps_buffer_shape_witness :
  exists buf',
    copy_ximg_rows_to_buffer_mlocked Sample.capture_buffer (mkXImage 2 2 32 8 0)
      (Sample.ramp 1 16) 0 2 = Some (0, buf') /\
    length (bits buf') = length (bits Sample.capture_buffer).
Proof.
  eexists. split; [vm_compute; reflexivity|].
  apply (copy_keeps_buffer_shape Sample.capture_buffer (mkXImage 2 2 32 8 0)
           (Sample.ramp 1 16) 0 2 0 _ eq_refl).
Defined.

(** X2.  Copying the rows [row_start .. row_end - 1] is the same as
    copying [row_start .. row_mid - 1] and then [row_mid .. row_end - 1]
    into the buffer the first copy leaves, for every split point in
    between: a frame can be copied in bands. *)
Theorem copy_rows_in_bands buf ximg src row_start row_mid row_end :
  row_start <= row_mid <= row_end ->
  copy_ximg_rows_to_buffer_mlocked buf ximg src row_start row_end =
  match copy_ximg_rows_to_buffer_mlocked buf ximg src row_start row_mid with
  | Some (_, buf1) => copy_ximg_rows_to_buffer_mlocked buf1 ximg src row_mid row_end
  | None => None
  end.
Proof.
  intros [H1 H2]. unfold copy_ximg_rows_to_buffer_mlocked, row_range.
  replace (row_end - row_start) with ((row_mid - row_start) + (row_end - row_mid)) by lia.
  rewrite seqZ_app by lia. rewrite copy_rows_from_app.
  replace (row_start + (row_mid - row_start)) with row_mid by lia.
  destruct (copy_rows_from buf ximg src (seqZ row_start (row_mid - row_start)) (bits buf))
    as [d1|]; simpl; [|done].
  by rewrite (copy_rows_from_stride buf (mkMBuffer _ _ _ d1)).
Qed.

Lemma copy_rows_in_bands_witness :
  copy_ximg_rows_to_buffer_mlocked Sample.capture_buffer (mkXImage 2 2 32 8 0)
    (Sample.ramp 1 16) 0 2 =
  match copy_ximg_rows_to_buffer_mlocked Sample.capture_buffer (mkXImage 2 2 32 8 0)
          (Sample.ramp 1 16) 0 1 with
  | Some (_, buf1) =>
      copy_ximg_rows_to_buffer_mlocked buf1 (mkXImage 2 2 32 8 0) (Sample.ramp 1 16) 1 2
  | None => None
  end.
Proof. apply copy_rows_in_bands. lia. Defined.

(** X3.  An image with fewer than 8 bits a pixel, or of width 0, has
    [width * (bits_per_pixel / 8) = 0] bytes a row: every copy of it that
    is defined leaves the bytes of the buffer as they were. *)
Theorem copy_subbyte_pixels_moves_nothing buf ximg src row_start row_end r buf' :
  ximg_width ximg = 0 \/ 0 <= bits_per_pixel ximg < 8 ->
  copy_ximg_rows_to_buffer_mlocked buf ximg src row_start row_end = Some (r, buf') ->
  bits buf' = bits buf.
Proof.
  intros Hzero. unfold copy_ximg_rows_to_buffer_mlocked.
  assert (Hn : u32 (ximg_width ximg * ximg_bytes_per_pixel ximg) = 0).
  { unfold ximg_bytes_per_pixel, c_div. destruct Hzero as [->|Hbpp]; [done|].
    rewrite Z.quot_small by lia. unfold u32. by rewrite Z.mul_0_r. }
  assert (Hrows : forall rows dst dst',
            copy_rows_from buf ximg src rows dst = Some dst' -> dst' = dst).
  { induction rows as [|y rows IH]; simpl; intros dst dst' H; [by simplify_eq|].
    destruct (copy_row buf ximg src y dst) as [d1|] eqn:Hrow; [|done]. simpl in H.
    rewrite (IH _ _ H). unfold copy_row in Hrow. rewrite Hn in Hrow.
    by eapply memcpy_nothing. }
  intros H. destruct (copy_rows_from _ _ _ _ _) as [dst'|] eqn:Hc; [|done].
  simpl in H. injection H as <- <-. simpl. by eapply Hrows.
Qed.

(** A bitmap of one bit a pixel. *)
Lemma copy_subbyte_pixels_moves_nothing_witness :
  exists buf',
    copy_ximg_rows_to_buffer_mlocked Sample.capture_buffer (mkXImage 16 2 1 2 0)
      (Sample.ramp 1 4) 0 2 = Some (0, buf') /\
    bits buf' = bits Sample.capture_buffer.
Proof.
  eexists. split; [vm_compute; reflexivity|].
  eapply (copy_subbyte_pixels_moves_nothing Sample.capture_buffer (mkXImage 16 2 1 2 0)
            (Sample.ramp 1 4) 0 2 0); [right; simpl; lia|vm_compute; reflexivity].
Defined.

(** ** What a call leaves alone *)

Lemma keeps_refl {T} (f : World -> T) w : keeps f w w.
Proof. done. Qed.

Lemma keeps_trans {T} (f : World -> T) w1 w2 w3 :
  keeps f w1 w2 -> keeps f w2 w3 -> keeps f w1 w3.
Proof. unfold keeps. congruence. Qed.

Create HintDb prims.
#[export] Hint Unfold XDisplayWidth XDisplayHeight XDisplayHeightMM MGetDisplayInfo
  XRRUpdateConfiguration XGrabServer XUngrabServer XRRGetScreenResources
  XRRFreeScreenResources XRRGetCrtcInfo XRRSetCrtcConfig XRRSetScreenSize
  deref XShmCreateImage set_image_data XDestroyImage shmget shmat shmdt
  shmctl_rmid XShmAttach XShmDetach XShmGetImage MCreateBuffer MResizeBuffer
  XCheckIfEvent XIfEvent XNextEvent
  : prims.

Create HintDb keeps.

(** A call of the model, by its definition. *)
Ltac keeps_leaf :=
  let w := fresh "w" in
  unfold preserves; intros w; autounfold with prims;
  unfold keeps, other_events, shm_state, shm_resources, bind, ret, crash, invoke;
  cbn; repeat case_match; simplify_eq; cbn; done.

(** Chains what the calls keep through a program. *)
Ltac keeps_tac :=
  repeat first
    [ progress cbv beta zeta
    | apply preserves_ret; apply keeps_refl
    | apply preserves_crash; apply keeps_refl
    | solve [eauto with keeps]
    | apply preserves_bind; [apply keeps_trans| |intros ?]
    | match goal with
      | |- preserves _ (match ?x with _ => _ end) => destruct x
      end
    | solve [keeps_leaf] ].

(** A poll that does not wait takes a notification, if any, out of the
    events and nothing else. *)
Lemma take_event_others p q :
  match take_event p q with
  | Some (ev, q') =>
      List.filter (fun e => negb (p e)) q' = List.filter (fun e => negb (p e)) q
  | None => True
  end.
Proof.
  induction q as [|e q IH]; simpl; [done|].
  destruct (p e) eqn:Hp; simpl; [done|].
  destruct (take_event p q) as [[ev q']|]; simpl; [|done].
  by rewrite Hp, IH.
Qed.

Lemma wait_event_others p l :
  match wait_event p l with
  | Some (skipped, ev, rest) =>
      List.filter (fun e => negb (p e)) (skipped ++ rest)
      = List.filter (fun e => negb (p e)) l
  | None => True
  end.
Proof.
  induction l as [|e l IH]; simpl; [done|].
  destruct (p e) eqn:Hp; simpl; [done|].
  destruct (wait_event p l) as [[[sk ev] rest]|]; simpl; [|done].
  by rewrite Hp, IH.
Qed.

Lemma keeps_others_XCheckIfEvent env base :
  preserves (keeps (other_events base))
    (XCheckIfEvent env (x_screenchangenotify_predicate base)).
Proof.
  intros w. unfold XCheckIfEvent, keeps, other_events.
  pose proof (take_event_others (x_screenchangenotify_predicate base)
                (queue w ++ take (env_arrived env (calls OpXCheckIfEvent w)) (later w)))
    as Hq.
  destruct (take_event _ _) as [[ev q']|]; cbn.
  - rewrite List.filter_app, Hq, <- List.filter_app, <- app_assoc.
    by rewrite take_drop.
  - by rewrite <- app_assoc, take_drop.
Qed.

Lemma keeps_others_XIfEvent base :
  preserves (keeps (other_events base))
    (XIfEvent (x_screenchangenotify_predicate base)).
Proof.
  intros w. unfold XIfEvent, keeps, other_events.
  pose proof (take_event_others (x_screenchangenotify_predicate base) (queue w)) as Hq.
  pose proof (wait_event_others (x_screenchangenotify_predicate base) (later w)) as Hl.
  destruct (take_event _ (queue w)) as [[ev q']|]; cbn.
  - by rewrite !List.filter_app, Hq.
  - destruct (wait_event _ (later w)) as [[[sk ev] rest]|]; cbn.
    + rewrite <- app_assoc. rewrite (List.filter_app _ (queue w) (sk ++ rest)), Hl.
      by rewrite <- List.filter_app.
    + by rewrite app_nil_r.
Qed.

#[export] Hint Resolve keeps_others_XCheckIfEvent keeps_others_XIfEvent : keeps.

(** ** Mode search *)

Lemma find_mode_first ms width height :
  match find_mode ms width height with
  | Some mode =>
      exists before after, ms = before ++ mode :: after /\
        mode_width mode = width /\ mode_height mode = height /\
        forall m, m ∈ before -> ~ (mode_width m = width /\ mode_height m = height)
  | None => forall m, m ∈ ms -> ~ (mode_width m = width /\ mode_height m = height)
  end.
Proof.
  induction ms as [|m0 ms IH]; simpl.
  - intros m Hm. by apply elem_of_nil in Hm.
  - destruct ((mode_width m0 =? width) && (mode_height m0 =? height)) eqn:Hm0.
    + apply andb_true_iff in Hm0 as [Hw Hh]. exists [], ms.
      repeat split; try lia. intros m Hm. by apply elem_of_nil in Hm.
    + assert (Hno : ~ (mode_width m0 = width /\ mode_height m0 = height)).
      { intros [Hw Hh]. apply andb_false_iff in Hm0 as [H|H]; lia. }
      destruct (find_mode ms width height) as [mode|].
      * destruct IH as (before & after & -> & Hw & Hh & Hbefore).
        exists (m0 :: before), after. repeat split; try done.
        intros m Hm. apply elem_of_cons in Hm as [->|Hm]; auto.
      * intros m Hm. apply elem_of_cons in Hm as [->|Hm]; auto.
Qed.

(** X4.  [x_find_matching_mode] returns the first mode of the snapshot
    whose width and height are both exactly the ones asked for: the
    mode it returns is in the list and has that size, and no mode before
    it has.  It returns [NULL] when there is no snapshot, or when no
    mode of the snapshot has that size. *)
Theorem x_find_matching_mode_first screenr width height :
  match x_find_matching_mode screenr width height with
  | Some mode =>
      exists sr before after, screenr = Some sr /\
        modes sr = before ++ mode :: after /\
        mode_width mode = width /\ mode_height mode = height /\
        forall m, m ∈ before -> ~ (mode_width m = width /\ mode_height m = height)
  | None =>
      forall sr, screenr = Some sr ->
        forall m, m ∈ modes sr -> ~ (mode_width m = width /\ mode_height m = height)
  end.
Proof.
  destruct screenr as [sr|]; simpl; [|done].
  pose proof (find_mode_first (modes sr) width height) as H.
  destruct (find_mode (modes sr) width height) as [mode|].
  - destruct H as (before & after & H). exists sr, before, after. by split.
  - intros sr' [= <-]. exact H.
Qed.

(** ** Mode setting *)




(** ** Confirmation wait and negotiation: what a return value means *)

(** The wait returns 0 only with the local configuration at the size of
    the mode. *)
Lemma x_sync_mode_loop_ret env mode base n : forall w r w',
  x_sync_mode_loop env n mode base w = Ret r w' ->
  (r = 0 \/ r = -1) /\
  (r = 0 -> u32 (g_width (disp w')) = mode_width mode /\
            u32 (g_height (disp w')) = mode_height mode).
Proof.
  induction n as [|n IH]; simpl; intros w r w' H.
  - injection H as <- <-. split; [auto|done].
  - apply bind_returns in H as (ev & w1 & _ & H).
    destruct (ev_type ev =? base + RRScreenChangeNotify); [|by eapply IH].
    destruct ((u32 (ev_width ev) =? mode_width mode)
              && (u32 (ev_height ev) =? mode_height mode)) eqn:Hm; [|by eapply IH].
    apply andb_true_iff in Hm as [Hw Hh].
    unfold XRRUpdateConfiguration, invoke, bind, ret in H.
    destruct (negb _); simpl in H; injection H as <- <-; (split; [auto|]);
      [|done]. intros _. simpl. lia.
Qed.

(** X6.  [x_sync_mode] returns 0, -1 or -2.  It returns 0 only when the
    local configuration has been refreshed to the width and height of
    the mode it was given; it returns -2, having made no call, when the
    resources or the mode are missing or the event base is negative. *)
Theorem x_sync_mode_result env screenr mode_opt base w r w' :
  x_sync_mode env screenr mode_opt base w = Ret r w' ->
  (r = 0 /\ exists mode, mode_opt = Some mode /\
     u32 (g_width (disp w')) = mode_width mode /\
     u32 (g_height (disp w')) = mode_height mode) \/
  r = -1 \/
  (r = -2 /\ w' = w /\ (screenr = None \/ mode_opt = None \/ base < 0)).
Proof.
  unfold x_sync_mode. intros H.
  destruct screenr as [sr|], mode_opt as [mode|];
    try (injection H as <- <-; right; right; auto).
  destruct (base <? 0) eqn:Hbase.
  - injection H as <- <-. right; right. repeat split; auto. right; right. lia.
  - apply x_sync_mode_loop_ret in H as [[-> | ->] Hsize]; [left|by right; left].
    split; [done|]. exists mode. split; [done|]. by apply Hsize.
Qed.

Lemma x_sync_mode_result_witness :
  let env := Sample.env [] Sample.fresh_addr 4 2 in
  let w := Sample.world 2 2 [Sample.screen_change 4 2] [] in
  let w' := world_of (x_sync_mode env (Some Sample.resources) (Some Sample.mode_4x2)
                        Sample.randr_base w) in
  u32 (g_width (disp w')) = 4 /\ u32 (g_height (disp w')) = 2.
Proof.
  intros env w w'.
  assert (Hrun : x_sync_mode env (Some Sample.resources) (Some Sample.mode_4x2)
                   Sample.randr_base w = Ret 0 w') by (vm_compute; reflexivity).
  destruct (x_sync_mode_result env _ _ _ w 0 w' Hrun) as [H|[H|H]].
  - destruct H as (_ & mode & Hm & Hw & Hh). injection Hm as <-. done.
  - discriminate H.
  - by destruct H as [H _].
Defined.

Section attempt.
Variables (env : Env) (base : Z).

Lemma target_size_some w tw th w1 :
  target_size env w = Ret (Some (tw, th)) w1 ->
  env_fails env OpMGetDisplayInfo (calls OpMGetDisplayInfo w) = false /\
  tw = dinfo_width (env_dinfo env (calls OpMGetDisplayInfo w)) /\
  th = dinfo_height (env_dinfo env (calls OpMGetDisplayInfo w)) /\
  0 < tw /\ 0 < th.
Proof.
  unfold target_size, MGetDisplayInfo, bind, ret. intros H.
  destruct (env_fails env OpMGetDisplayInfo _); [done|].
  destruct (_ && _) eqn:Hpos; [|done]. injection H as <- <- <-.
  apply andb_true_iff in Hpos as [? ?]. repeat split; lia.
Qed.

(** The calls between the grab and its release, when they end with 0. *)
Lemma negotiate_synced screenr tw th w r w' :
  (let matching_mode := x_find_matching_mode screenr tw th in
   let* err :=
     match matching_mode with
     | Some _ =>
         let* r := x_set_mode env screenr matching_mode in
         if r =? 0 then
           let* r := x_sync_mode env screenr matching_mode base in
           if r =? 0 then ret 0 else ret (-1)
         else ret (-1)
     | None => ret (-1)
     end in
   let* _ := XRRFreeScreenResources screenr in
   ret err) w = Ret r w' ->
  (r = 0 \/ r = -1) /\
  (r = 0 -> u32 (g_width (disp w')) = tw /\ u32 (g_height (disp w')) = th).
Proof.
  cbv zeta. intros H.
  apply bind_returns in H as (err & w1 & Herr & H).
  apply bind_returns in H as ([] & w2 & Hfree & H).
  injection H as <- <-. injection Hfree as <-.
  destruct screenr as [sr|]; unfold x_find_matching_mode in Herr.
  2:{ injection Herr as <- <-. split; [auto|done]. }
  pose proof (find_mode_first (modes sr) tw th) as Hfind.
  destruct (find_mode (modes sr) tw th) as [mode|].
  2:{ injection Herr as <- <-. split; [auto|done]. }
  destruct Hfind as (_ & _ & _ & <- & <- & _).
  apply bind_returns in Herr as (r1 & w3 & _ & Herr).
  destruct (r1 =? 0).
  2:{ injection Herr as <- <-. split; [auto|done]. }
  apply bind_returns in Herr as (r2 & w4 & Hsync & Herr).
  destruct (r2 =? 0) eqn:Hr2; injection Herr as <- <-; (split; [auto|]); [|done].
  intros _. apply Z.eqb_eq in Hr2 as ->.
  unfold x_sync_mode in Hsync. destruct (base <? 0); [done|].
  apply x_sync_mode_loop_ret in Hsync as [_ Hsize]. by apply Hsize.
Qed.
End attempt.

Section attempt_result.
Variables (env : Env) (base : Z).

(** X7.  [sync_displays] returns 0 or -1.  It returns 0 only when the
    destination display reported a size with positive width and height
    and the local configuration of the source display ends at exactly
    that size: after a return of 0 the screen the capture reads has the
    size of the real display. *)
Theorem sync_displays_result w r w' :
  sync_displays env base w = Ret r w' ->
  (r = 0 \/ r = -1) /\
  (r = 0 ->
   let dinfo := env_dinfo env (calls OpMGetDisplayInfo w) in
   env_fails env OpMGetDisplayInfo (calls OpMGetDisplayInfo w) = false /\
   0 < dinfo_width dinfo /\ 0 < dinfo_height dinfo /\
   u32 (g_width (disp w')) = dinfo_width dinfo /\
   u32 (g_height (disp w')) = dinfo_height dinfo).
Proof.
  unfold sync_displays. intros H.
  apply bind_returns in H as (target & w1 & H1 & H).
  destruct target as [[tw th]|].
  2:{ injection H as <- <-. split; [auto|done]. }
  apply target_size_some in H1 as (Hok & -> & -> & Hw & Hh).
  apply bind_returns in H as ([] & w2 & _ & H).
  apply bind_returns in H as ([] & w3 & Hgrab & H). injection Hgrab as <-.
  apply bind_returns in H as (xw & w4 & Hxw & H). injection Hxw as <- <-.
  apply bind_returns in H as (xh & w5 & Hxh & H). injection Hxh as <- <-.
  apply bind_returns in H as (err & w6 & Herr & H).
  apply bind_returns in H as ([] & w7 & Hungrab & H).
  injection H as <- <-. injection Hungrab as <-. cbn in Herr.
  destruct (negb _ || negb _) eqn:Hneeded.
  - apply bind_returns in Herr as (screenr & w8 & _ & Herr).
    apply negotiate_synced in Herr as [Hr Hsize]. split; [done|].
    intros ->. cbn. destruct (Hsize eq_refl). done.
  - injection Herr as <- <-. split; [auto|]. intros _. cbn.
    apply orb_false_iff in Hneeded as [Hnw Hnh].
    apply negb_false_iff in Hnw, Hnh. repeat split; try done; lia.
Qed.

End attempt_result.

Lemma sync_displays_result_witness :
  let env := Sample.env [] Sample.fresh_addr 4 2 in
  let w := Sample.world 2 2 [] [Sample.screen_change 4 2] in
  let w' := world_of (sync_displays env Sample.randr_base w) in
  u32 (g_width (disp w')) = 4 /\ u32 (g_height (disp w')) = 2.
Proof.
  intros env w w'.
  assert (Hrun : sync_displays env Sample.randr_base w = Ret 0 w')
    by (vm_compute; reflexivity).
  destruct (sync_displays_result env Sample.randr_base w 0 w' Hrun) as [_ H].
  destruct (H eq_refl) as (_ & _ & _ & Hw & Hh). done.
Defined.

(** X8.  Without a valid target (the destination display cannot be
    queried, or reports a width or a height that is not positive)
    [sync_displays] returns -1 having made that one query only: the
    server is not grabbed and nothing of the source display is read or
    changed. *)
Theorem sync_displays_invalid_target env base w :
  let n := calls OpMGetDisplayInfo w in
  env_fails env OpMGetDisplayInfo n = true \/
  dinfo_width (env_dinfo env n) <= 0 \/ dinfo_height (env_dinfo env n) <= 0 ->
  sync_displays env base w = Ret (-1) (log OpMGetDisplayInfo w).
Proof.
  intros n Hbad. unfold sync_displays, target_size, MGetDisplayInfo, bind, ret.
  fold n. destruct (env_fails env OpMGetDisplayInfo n); [done|].
  destruct Hbad as [Hbad|Hbad]; [done|].
  destruct ((0 <? _) && (0 <? _)) eqn:Hpos; [|done].
  apply andb_true_iff in Hpos as [? ?]. lia.
Qed.

(** A destination display that reports a height of 0. *)
Lemma sync_displays_invalid_target_witness :
  let env := Sample.env [] Sample.fresh_addr 4 0 in
  let w := Sample.world 2 2 [Sample.screen_change 4 2] [] in
  sync_displays env Sample.randr_base w = Ret (-1) (log OpMGetDisplayInfo w).
Proof.
  intros env w. apply sync_displays_invalid_target. right; right. simpl. lia.
Defined.

Section attempt_progress.
Variables (env : Env) (base : Z).

(** What the calls keep of the server and of the grab. *)
Lemma XIfEvent_keeps p :
  preserves (keeps (fun w => (disp w, srv w, srv_mode w, grabbed w))) (XIfEvent p).
Proof. unfold XIfEvent. keeps_leaf. Qed.

(** A wait that meets a matching notification within its bound returns
    0 with the local configuration set from that notification, if the
    refresh succeeds. *)
Lemma x_sync_mode_loop_confirmed mode (bound : nat) : forall w ev,
  confirm bound mode (notifications base w) = Confirmed ev ->
  env_fails env OpXRRUpdateConfiguration (calls OpXRRUpdateConfiguration w) = false ->
  exists w', x_sync_mode_loop env bound mode base w = Ret 0 w' /\
    disp w' = mkGeometry (ev_width ev) (ev_height ev) (ev_mwidth ev) (ev_mheight ev) /\
    srv w' = srv w /\ srv_mode w' = srv_mode w /\ grabbed w' = grabbed w.
Proof.
  induction bound as [|b IH]; simpl; intros w ev Hc Hok; [done|].
  pose proof (XIfEvent_spec base w) as HX.
  pose proof (XIfEvent_keeps (x_screenchangenotify_predicate base) w) as Hkeep.
  destruct (notifications base w) as [|ev0 ns]; [done|].
  destruct HX as (w1 & HX & Hns1 & Ht1 & Hty).
  rewrite HX in Hkeep. simpl in Hkeep. injection Hkeep as Hd Hs Hm Hg.
  rewrite (bind_Ret _ _ _ _ _ HX), Hty, Z.eqb_refl.
  fold (mode_matches mode ev0). destruct (mode_matches mode ev0).
  - injection Hc as <-.
    unfold XRRUpdateConfiguration, bind, invoke, ret.
    rewrite (calls_extends OpXRRUpdateConfiguration w w1)
      by (exists [OpXIfEvent]; done).
    rewrite Hok. simpl. eexists. split; [done|]. cbn. done.
  - rewrite <- Hns1 in Hc. destruct (IH w1 ev Hc) as (w' & Hrun & Hdisp & ? & ? & ?).
    { rewrite (calls_extends OpXRRUpdateConfiguration w w1); [done|].
      by exists [OpXIfEvent]. }
    exists w'. split; [done|]. repeat split; congruence.
Qed.

Lemma bind_assoc {A B C} (m : M A) (k : A -> M B) (k' : B -> M C) w :
  bind (bind m k) k' w = bind m (fun a => bind (k a) k') w.
Proof. unfold bind. by destruct (m w). Qed.

(** A mode set the server accepts. *)
Lemma x_set_mode_ok sr mode w :
  crtcs sr <> [] ->
  env_fails env OpXRRGetCrtcInfo (calls OpXRRGetCrtcInfo w) = false ->
  env_fails env OpXRRSetCrtcConfig (calls OpXRRSetCrtcConfig w) = false ->
  exists w', x_set_mode env (Some sr) (Some mode) w = Ret 0 w' /\
    queue w' = queue w /\ later w' = later w /\
    srv_mode w' = mode_id mode /\
    g_width (srv w') = mode_width mode /\ g_height (srv w') = mode_height mode /\
    trace w' = trace w ++ [OpXDisplayHeight; OpXDisplayHeightMM; OpXRRGetCrtcInfo;
                           OpXRRSetCrtcConfig; OpXRRSetScreenSize].
Proof.
  intros Hcrtc Hinfo Hconfig.
  unfold x_set_mode, XDisplayHeight, XDisplayHeightMM, XRRGetCrtcInfo,
    XRRSetCrtcConfig, XRRSetScreenSize, invoke, bind, ret, crash.
  destruct (crtcs sr) as [|crtc0 ?]; [done|].
  rewrite !calls_log_ne by discriminate. rewrite Hinfo. simpl.
  rewrite !calls_log_ne by discriminate. rewrite Hconfig. simpl.
  eexists. split; [done|]. cbn. by rewrite <- !app_assoc.
Qed.

(** X9.  The attempt succeeds when it can: when the size asked for
    differs from the size of the source screen, the server advertises a
    mode of exactly that size, the crtc takes it, and a notification of
    that size is among the first three screen-change notifications
    delivered, [sync_displays] returns 0, and the server's mode, the
    server's screen size and the local configuration are all at the size
    asked for, with the grab released. *)
Theorem sync_displays_applies_mode w tw th w1 w2 sr mode ev :
  target_size env w = Ret (Some (tw, th)) w1 ->
  resync_pending env base w1 = Ret tt w2 ->
  u32 (g_width (disp w2)) <> tw \/ u32 (g_height (disp w2)) <> th ->
  env_resources env (calls OpXRRGetScreenResources w2) = Some sr ->
  x_find_matching_mode (Some sr) tw th = Some mode ->
  crtcs sr <> [] ->
  env_fails env OpXRRGetCrtcInfo (calls OpXRRGetCrtcInfo w2) = false ->
  env_fails env OpXRRSetCrtcConfig (calls OpXRRSetCrtcConfig w2) = false ->
  0 <= base ->
  confirm 3 mode (notifications base w2) = Confirmed ev ->
  env_fails env OpXRRUpdateConfiguration (calls OpXRRUpdateConfiguration w2) = false ->
  exists w', sync_displays env base w = Ret 0 w' /\
    srv_mode w' = mode_id mode /\
    g_width (srv w') = tw /\ g_height (srv w') = th /\
    disp w' = mkGeometry (ev_width ev) (ev_height ev) (ev_mwidth ev) (ev_mheight ev) /\
    u32 (g_width (disp w')) = tw /\ u32 (g_height (disp w')) = th /\
    grabbed w' = false.
Proof.
  intros H1 H2 Hne Hsr Hfind Hcrtc Hinfo Hconfig Hbase Hconfirm Hupdate.
  unfold sync_displays.
  rewrite (bind_Ret _ _ _ _ _ H1). cbv beta iota.
  rewrite (bind_Ret _ _ _ _ _ H2).
  rewrite (bind_Ret _ _ _ _ _ (eq_refl : XGrabServer w2 = Ret tt _)).
  rewrite (bind_Ret _ _ _ _ _ (eq_refl : XDisplayWidth _ = Ret _ _)).
  rewrite (bind_Ret _ _ _ _ _ (eq_refl : XDisplayHeight _ = Ret _ _)).
  cbn [disp log set_grabbed].
  assert (Hneeded : negb (u32 (g_width (disp w2)) =? tw)
                    || negb (u32 (g_height (disp w2)) =? th) = true).
  { apply orb_true_iff. rewrite !negb_true_iff, !Z.eqb_neq. done. }
  rewrite Hneeded.
  cbv iota. rewrite !bind_assoc.
  rewrite (bind_Ret _ _ _ _ _ (eq_refl : XRRGetScreenResources env _ = Ret _ _)).
  calls_simpl. rewrite Hsr. cbv zeta. rewrite Hfind. rewrite !bind_assoc.
  pose proof (find_mode_first (modes sr) tw th) as Hmode.
  unfold x_find_matching_mode in Hfind. rewrite Hfind in Hmode.
  destruct Hmode as (_ & _ & _ & Hmw & Hmh & _).
  match goal with |- exists _, bind _ _ ?w5 = _ /\ _ =>
    destruct (x_set_mode_ok sr mode w5 Hcrtc) as (w6 & Hset & Hq & Hl & Hsm & Hsw & Hsh & Ht6);
      [calls_simpl; assumption..|]
  end.
  rewrite (bind_Ret _ _ _ _ _ Hset), Z.eqb_refl. cbv iota. rewrite !bind_assoc.
  unfold x_sync_mode. rewrite (proj2 (Z.ltb_ge base 0)) by lia.
  destruct (x_sync_mode_loop_confirmed mode 3 w6 ev) as (w7 & Hloop & Hdisp & Hsrv & Hmd & Hg).
  { unfold notifications. rewrite Hq, Hl. exact Hconfirm. }
  { rewrite (calls_extends OpXRRUpdateConfiguration w2 w6); [done|].
    eexists. split; [rewrite Ht6; cbn; rewrite <- !app_assoc; reflexivity|done]. }
  rewrite (bind_Ret _ _ _ _ _ Hloop), Z.eqb_refl. cbv iota.
  unfold bind, ret, XRRFreeScreenResources, XUngrabServer.
  eexists. split; [done|]. cbn. rewrite Hsrv, Hmd, Hdisp. cbn.
  assert (Hm : mode_matches mode ev = true).
  { clear -Hconfirm. revert Hconfirm. generalize (notifications base w2). generalize 3%nat.
    induction n as [|n IH]; intros [|e l]; simpl; try done.
    destruct (mode_matches mode e) eqn:He; [by intros [= <-]|apply IH]. }
  apply andb_true_iff in Hm as [Hew Heh].
  repeat split; try congruence; lia.
Qed.
End attempt_progress.

(** A 2x2 screen, a destination display of 4x2, and the notification of
    the 4x2 mode. *)
Lemma sync_displays_applies_mode_witness :
  let env := Sample.env [] Sample.fresh_addr 4 2 in
  let w := Sample.world 2 2 [] [Sample.screen_change 4 2] in
  exists w', sync_displays env Sample.randr_base w = Ret 0 w' /\
    srv_mode w' = 8 /\ g_width (srv w') = 4 /\ g_height (srv w') = 2 /\
    u32 (g_width (disp w')) = 4 /\ u32 (g_height (disp w')) = 2 /\
    grabbed w' = false.
Proof.
  intros env w.
  destruct (sync_displays_applies_mode env Sample.randr_base w 4 2
              (world_of (target_size env w))
              (world_of (resync_pending env Sample.randr_base
                           (world_of (target_size env w))))
              Sample.resources Sample.mode_4x2 (Sample.screen_change 4 2))
    as (w' & Hrun & Hmode & Hw & Hh & _ & Hdw & Hdh & Hg).
  1, 2, 4, 5, 7, 8, 10, 11: vm_compute; reflexivity.
  - left. vm_compute. discriminate.
  - discriminate.
  - vm_compute. discriminate.
  - exists w'.
    exact (conj Hrun (conj Hmode (conj Hw (conj Hh (conj Hdw (conj Hdh Hg)))))).
Defined.

(** ** What a negotiation attempt leaves alone *)

Lemma x_sync_mode_loop_keeps_others env n mode base :
  preserves (keeps (other_events base)) (x_sync_mode_loop env n mode base).
Proof. induction n as [|n IH]; simpl; keeps_tac. Qed.

Lemma x_sync_mode_loop_keeps_shm env n mode base :
  preserves (keeps shm_state) (x_sync_mode_loop env n mode base).
Proof. induction n as [|n IH]; simpl; keeps_tac. Qed.

#[export] Hint Resolve x_sync_mode_loop_keeps_others x_sync_mode_loop_keeps_shm : keeps.

(** X10.  A negotiation attempt, however it ends (also when it blocks
    or dies under the grab), takes nothing but screen-change
    notifications out of the events: every other event, a damage
    notification for instance, is still there, in its order, for the
    event loop.  It creates, maps, attaches and releases no image and no
    shared memory. *)
Theorem sync_displays_keeps_events_and_shm env base w :
  let w' := world_of (sync_displays env base w) in
  other_events base w' = other_events base w /\ shm_state w' = shm_state w.
Proof.
  intros w'. split.
  - assert (H : preserves (keeps (other_events base)) (sync_displays env base)).
    { unfold sync_displays, target_size, resync_pending, x_set_mode, x_sync_mode.
      keeps_tac. }
    apply H.
  - assert (H : preserves (keeps shm_state) (sync_displays env base)).
    { unfold sync_displays, target_size, resync_pending, x_set_mode, x_sync_mode.
      keeps_tac. }
    apply H.
Qed.

(** ** Shared memory: release *)




(** ** Shared memory: creation *)




(** A world without resources. *)
Lemma world_well_formed width height q l :
  well_formed (Sample.world width height q l).
Proof.
  unfold well_formed, Sample.world, MAP_FAILED. cbn.
  split; [intros; apply lookup_empty|].
  split; [intros; split; [apply lookup_empty|apply not_elem_of_empty]|].
  split; [intros; apply lookup_empty|]. lia.
Qed.



(** X15.  A creation that fails leaks no shared memory, provided
    [shmat] itself did not fail: when [xshm_init] returns [NULL] in a
    world whose allocators hand out what is not in use, the segments,
    the mappings and the server's attachments are as they were before
    the call.  In particular the segment and the mapping made before a
    refused [XShmAttach] are released again. *)
Theorem xshm_init_failure_releases_shm env si w si' w' :
  well_formed w ->
  xshm_init env si w = Ret (None, si') w' ->
  env_fails env OpShmat (calls OpShmat w) = false ->
  segments w' = segments w /\ mappings w' = mappings w /\
  x_attached w' = x_attached w.
Proof.
  intros (_ & Hws & Hwm & Hid & Haddr & _) Hrun Hat. revert Hrun.
  destruct (Hws (next_shmid w)) as [Hsfree _]; [lia|].
  assert (Hmfree : mappings w !! next_addr w = None) by (apply Hwm; lia).
  unfold xshm_init, XDisplayWidth, XDisplayHeight, XShmCreateImage, bind. cbn.
  calls_simpl.
  destruct (env_fails env OpXShmCreateImage _); [by intros [= <- <-]|].
  unfold deref, shmget, shmat, set_image_data, XShmAttach, cleanup_shm, shmdt,
    shmctl_rmid, invoke, bind, ret. cbn.
  rewrite lookup_insert_eq. cbn. calls_simpl.
  destruct (env_fails env OpShmget _); cbn; [by intros [= <- <-]|].
  rewrite (proj2 (Z.ltb_ge (next_shmid w) 0)) by lia. cbn.
  calls_simpl. rewrite Hat, !lookup_insert_eq. cbn. rewrite !lookup_insert_eq. cbn.
  rewrite (proj2 (Z.ltb_ge (next_addr w) 0)) by lia. cbn. calls_simpl.
  destruct (env_fails env OpXShmAttach _); cbn; [|done].
  rewrite !lookup_insert_eq. cbn. rewrite !lookup_insert_eq. cbn.
  intros [= <- <-]. cbn. by rewrite !delete_insert_id.
Qed.

(** The X server refuses the segment. *)
Lemma xshm_init_failure_releases_shm_witness :
  let env := Sample.env [(OpXShmAttach, 0%nat)] Sample.fresh_addr 2 2 in
  let w := Sample.world 2 2 [] [] in
  let w' := world_of (xshm_init env Sample.capture_shminfo w) in
  segments w' = segments w /\ mappings w' = mappings w /\ x_attached w' = x_attached w.
Proof.
  intros env w w'.
  apply (xshm_init_failure_releases_shm env Sample.capture_shminfo w
           (mkXShmSegmentInfo 0 0 false) w').
  - apply world_well_formed.
  - vm_compute. reflexivity.
  - vm_compute. reflexivity.
Defined.

(** ** Frame render: lock discipline and the fresh frame *)

(** X16.  Every call of [render_root] that returns has asked for the
    lock once, as its first call.  When the lock was refused it returns
    -1 at once: the buffer is untouched and neither the fetch nor the
    unlock is called.  When the lock was taken it has made exactly one
    fetch and then exactly one unlock, and the buffer has the width,
    height, stride and number of bytes it had.  In both cases the
    images, the segments and the local configuration are as they
    were. *)
Theorem render_root_lock_discipline env buf ximg w r buf' w' :
  render_root env buf ximg w = Ret (r, buf') w' ->
  images w' = images w /\ segments w' = segments w /\ disp w' = disp w /\
  ((env_fails env OpMLockBuffer (calls OpMLockBuffer w) = true /\
    trace w' = trace w ++ [OpMLockBuffer] /\
    r = -1 /\ buf' = buf /\ mappings w' = mappings w) \/
   (env_fails env OpMLockBuffer (calls OpMLockBuffer w) = false /\
    trace w' = trace w ++ [OpMLockBuffer; OpXShmGetImage; OpMUnlockBuffer] /\
    (r = 0 \/ r = -1) /\
    buf_width buf' = buf_width buf /\ buf_height buf' = buf_height buf /\
    stride buf' = stride buf /\ length (bits buf') = length (bits buf))).
Proof.
  unfold render_root. intros H.
  apply bind_returns in H as (ok & w1 & Hlock & H).
  unfold invoke in Hlock. injection Hlock as <- <-.
  destruct (env_fails env OpMLockBuffer (calls OpMLockBuffer w)); simpl in H.
  { injection H as <- <- <-. repeat split; try done. left. done. }
  apply bind_returns in H as (status & w2 & Hfetch & H).
  apply bind_returns in H as (img & w3 & Himg & H).
  apply bind_returns in H as (buf1 & w4 & Hcopy & H).
  apply bind_returns in H as (ok & w5 & Hunlock & H).
  unfold invoke in Hunlock. injection Hunlock as <- <-.
  assert (Hw2 : images w2 = images w /\ segments w2 = segments w /\ disp w2 = disp w /\
                trace w2 = trace w ++ [OpMLockBuffer; OpXShmGetImage]).
  { revert Hfetch. unfold XShmGetImage, deref, bind. cbn.
    repeat case_match; intros; simplify_eq; cbn; rewrite <- ?app_assoc; done. }
  destruct Hw2 as (Him & Hseg & Hdisp & Ht).
  unfold deref in Himg. destruct (images w2 !! ximg); [|done]. injection Himg as <- <-.
  destruct (copy_ximg_to_buffer_mlocked buf _ _) as [[c b]|] eqn:Hc; [|done].
  injection Hcopy as <- <-.
  assert (Hshape : buf_width b = buf_width buf /\ buf_height b = buf_height buf /\
                   stride b = stride buf /\ length (bits b) = length (bits buf)).
  { revert Hc. unfold copy_ximg_to_buffer_mlocked, copy_ximg_rows_to_buffer_mlocked.
    destruct (copy_rows_from _ _ _ _ _) as [dst|] eqn:Hrows; [|done].
    intros [= <- <-]. simpl. repeat split. by eapply copy_rows_from_length. }
  assert (Hr : (r = 0 \/ r = -1) /\ buf' = b /\ w' = log OpMUnlockBuffer w2).
  { revert H. unfold ret. destruct (negb _); intros [= <- <- <-]; auto. }
  destruct Hr as (Hr & -> & ->). cbn. rewrite Ht, <- app_assoc. cbn.
  destruct Hshape as (Hbw & Hbh & Hbs & Hbl).
  repeat split; try done. right. by repeat split.
Qed.

Lemma render_root_lock_discipline_witness :
  let env := Sample.env [(OpMLockBuffer, 0%nat)] Sample.fresh_addr 2 2 in
  let o := render_root env Sample.capture_buffer 0 Sample.capture_world in
  trace (world_of o) = [OpMLockBuffer] /\ mappings (world_of o) = mappings Sample.capture_world.
Proof.
  intros env o.
  assert (Hrun : o = Ret (-1, Sample.capture_buffer) (world_of o))
    by (vm_compute; reflexivity).
  destruct (render_root_lock_discipline env Sample.capture_buffer 0 Sample.capture_world
              (-1) Sample.capture_buffer (world_of o) Hrun) as (_ & _ & _ & [H|H]).
  - destruct H as (_ & Ht & _ & _ & Hmap). exact (conj Ht Hmap).
  - destruct H as (Hlock & _). vm_compute in Hlock. discriminate Hlock.
Defined.

(** X17.  When the lock is taken and the fetch succeeds, the buffer
    receives the frame just fetched: the server's frame is written into
    the mapping of the image before the copy reads it, the rows copied
    are those of that frame and not of the one before, and the call
    returns 0 unless the unlock fails. *)
Theorem render_root_copies_fresh_frame env buf ximg w img old buf' :
  env_fails env OpMLockBuffer (calls OpMLockBuffer w) = false ->
  env_fails env OpXShmGetImage (calls OpXShmGetImage w) = false ->
  images w !! ximg = Some img ->
  mappings w !! data img = Some old ->
  let frame := take (length old)
                 (env_frame env (calls OpXShmGetImage w) ++ replicate (length old) x00) in
  copy_ximg_to_buffer_mlocked buf img frame = Some (0, buf') ->
  exists w', render_root env buf ximg w = Ret (unlock_code env w, buf') w' /\
    mappings w' = <[data img := frame]> (mappings w) /\
    trace w' = trace w ++ [OpMLockBuffer; OpXShmGetImage; OpMUnlockBuffer].
Proof.
  intros Hlock Hfetch Himg Hmap frame Hcopy.
  unfold render_root, XShmGetImage, deref, invoke, bind, ret, unlock_code.
  cbn -[copy_ximg_to_buffer_mlocked default].
  rewrite Hlock. cbn -[copy_ximg_to_buffer_mlocked default]. rewrite Himg.
  cbn -[copy_ximg_to_buffer_mlocked default].
  rewrite calls_log_ne by discriminate. rewrite Hfetch, Hmap.
  cbn -[copy_ximg_to_buffer_mlocked default].
  rewrite Himg. cbn [mappings log set_mappings]. rewrite lookup_insert_eq.
  cbn [default]. fold frame. unfold id. rewrite Hcopy. cbn.
  calls_simpl.
  destruct (env_fails env OpMUnlockBuffer _); cbn;
    eexists; (split; [done|]); cbn; rewrite <- !app_assoc; done.
Qed.

(** The server's frame is all [0xff]: the two rows of eight bytes reach
    the buffer, over the bytes 1 to 16 the mapping held. *)
Lemma render_root_copies_fresh_frame_witness :
  let env := Sample.env [] Sample.fresh_addr 2 2 in
  exists buf' w',
    render_root env Sample.capture_buffer 0 Sample.capture_world = Ret (0, buf') w' /\
    bits buf' = replicate 8 xff ++ replicate 4 x00 ++ replicate 8 xff ++ replicate 4 x00.
Proof.
  intros env.
  destruct (render_root_copies_fresh_frame env Sample.capture_buffer 0
              Sample.capture_world (mkXImage 2 2 32 8 0) (Sample.ramp 1 16)
              (mkMBuffer 2 2 3
                 (replicate 8 xff ++ replicate 4 x00 ++ replicate 8 xff ++ replicate 4 x00)))
    as (w' & Hrun & _).
  1, 2, 3, 4, 5: vm_compute; reflexivity.
  eexists _, w'. split; [exact Hrun|reflexivity].
Defined.

(** ** Buffers follow the screen *)

(** X18.  [resize_shm] touches nothing when the image already has the
    size of the screen: it returns 0 after the two reads of the size,
    with the image, the segment and the mapping in place. *)
Theorem resize_shm_same_size env ximg si w img :
  images w !! ximg = Some img ->
  ximg_width img = g_width (disp w) -> ximg_height img = g_height (disp w) ->
  resize_shm env ximg si w = Ret (0, si) (log OpXDisplayHeight (log OpXDisplayWidth w)).
Proof.
  intros Himg Hw Hh.
  unfold resize_shm, XDisplayWidth, XDisplayHeight, deref, bind, ret. cbn.
  by rewrite Himg, Hw, Hh, !Z.eqb_refl.
Qed.

Lemma resize_shm_same_size_witness :
  resize_shm (Sample.env [] Sample.fresh_addr 2 2) 0 Sample.capture_shminfo
    Sample.capture_world
  = Ret (0, Sample.capture_shminfo)
      (log OpXDisplayHeight (log OpXDisplayWidth Sample.capture_world)).
Proof.
  apply (resize_shm_same_size _ 0%nat _ _ (mkXImage 2 2 32 8 0)); reflexivity.
Defined.

(** X19.  [resize_mbuffer] always returns, leaving the screen
    configuration alone.  After a return of 0 the buffer has the width
    and height of the screen (as 32-bit unsigned values); after -1 the
    buffer is the one it was given.  When the buffer already has that
    size the destination subsystem is not asked to resize it. *)
Theorem resize_mbuffer_result env root w :
  exists r root' w', resize_mbuffer env root w = Ret (r, root') w' /\
    disp w' = disp w /\
    ((r = 0 /\ buf_width root' = u32 (g_width (disp w)) /\
      buf_height root' = u32 (g_height (disp w))) \/
     (r = -1 /\ root' = root)) /\
    (buf_width root = u32 (g_width (disp w)) ->
     buf_height root = u32 (g_height (disp w)) ->
     r = 0 /\ root' = root /\ calls OpMResizeBuffer w' = calls OpMResizeBuffer w).
Proof.
  unfold resize_mbuffer, XDisplayWidth, XDisplayHeight, MResizeBuffer, sized_buffer,
    invoke, bind, ret. cbn.
  destruct (negb (buf_width root =? _) || negb (buf_height root =? _)) eqn:Hneeded; cbn.
  - apply orb_true_iff in Hneeded. rewrite !negb_true_iff, !Z.eqb_neq in Hneeded.
    destruct (env_fails env OpMResizeBuffer _); cbn;
      eexists _, _, _; (split; [done|]); cbn; (split; [done|]); (split; [auto|]);
      intros; lia.
  - apply orb_false_iff in Hneeded as [Hw Hh].
    apply negb_false_iff in Hw, Hh. apply Z.eqb_eq in Hw, Hh.
    eexists _, _, _. split; [done|]. cbn. split; [done|]. split; [auto|].
    intros _ _. repeat split. by calls_simpl.
Qed.

(** ** The run of [main]: order of its calls *)

Lemma closes_bind {A B} (m : M A) (k : A -> M B) :
  (forall a, closes_display (k a)) -> closes_display (bind m k).
Proof. intros Hk w b w' (a & w1 & _ & Hrun)%bind_returns. by eapply Hk. Qed.

Lemma closes_close env {A} (a : A) :
  closes_display (let* _ := invoke env OpXCloseDisplay in ret a).
Proof.
  intros w b w'. unfold invoke, bind, ret. intros [= <- <-]. cbn. apply last_snoc.
Qed.

Lemma closes_cleanup_1 env err : closes_display (cleanup_1 env err).
Proof.
  intros w b w'. unfold cleanup_1, invoke, bind, ret. intros [= <- <-]. cbn.
  apply last_snoc.
Qed.

(** X20.  [main] returns without closing the connection to the X server
    only when it never had one: when [XInitThreads] or [XOpenDisplay]
    failed, which is then the last call it made.  On every other return,
    whatever failed and however the event loop ended, the last call of
    the run is [XCloseDisplay]. *)
Theorem main_closes_display env fuel w r w' :
  main env fuel w = Ret r w' ->
  (env_fails env OpXInitThreads (calls OpXInitThreads w) = true /\ r = -1 /\
   trace w' = trace w ++ [OpXInitThreads]) \/
  (env_fails env OpXOpenDisplay (calls OpXOpenDisplay w) = true /\ r = -1 /\
   trace w' = trace w ++ [OpXInitThreads; OpXOpenDisplay]) \/
  (env_fails env OpXInitThreads (calls OpXInitThreads w) = false /\
   env_fails env OpXOpenDisplay (calls OpXOpenDisplay w) = false /\
   last (trace w') = Some OpXCloseDisplay).
Proof.
  unfold main. cbv zeta. intros H.
  apply bind_returns in H as (ok & w1 & Hinit & H).
  unfold invoke in Hinit. injection Hinit as <- <-.
  destruct (env_fails env OpXInitThreads (calls OpXInitThreads w)); cbn [negb] in H.
  { injection H as <- <-. left. done. }
  apply bind_returns in H as (ok & w2 & Hopen & H).
  unfold invoke in Hopen. injection Hopen as <- <-.
  rewrite calls_log_ne in H by discriminate.
  destruct (env_fails env OpXOpenDisplay (calls OpXOpenDisplay w)); cbn [negb] in H.
  { injection H as <- <-. right; left. cbn. by rewrite <- app_assoc. }
  right; right. split; [done|]. split; [done|].
  match type of H with ?m _ = _ =>
    assert (Hc : closes_display m); [|exact (Hc _ _ _ H)]
  end.
  clear H.
  repeat first
    [ progress cbv beta
    | apply closes_close
    | apply closes_cleanup_1
    | apply closes_bind; intros ?
    | match goal with
      | |- closes_display (if negb ?b then _ else _) => destruct b; cbn [negb]
      | |- closes_display (match ?x with _ => _ end) => destruct x
      end ].
Qed.

(** The shared memory extension is missing. *)
Lemma main_closes_display_witness :
  let env := Sample.env [(OpXShmQueryExtension, 0%nat)] Sample.same_addr 2 2 in
  let w' := world_of (main env 1 (Sample.world 2 2 [] [])) in
  last (trace w') = Some OpXCloseDisplay.
Proof.
  intros env w'.
  assert (Hrun : main env 1 (Sample.world 2 2 [] []) = Ret (-1) w')
    by (vm_compute; reflexivity).
  destruct (main_closes_display env 1 (Sample.world 2 2 [] []) (-1) w' Hrun)
    as [H|[H|H]].
  - destruct H as [H _]. vm_compute in H. discriminate H.
  - destruct H as [H _]. vm_compute in H. discriminate H.
  - destruct H as (_ & _ & H). exact H.
Defined.

(** *** Damage is acknowledged before each render *)

Lemma last_default {A} (x : A) l d d' : List.last (x :: l) d = List.last (x :: l) d'.
Proof. revert x. induction l as [|y l IH]; intros x; [done|]. apply (IH y). Qed.

Lemma last_app_default {A} (l l' : list A) d :
  List.last (l ++ l') d = List.last l' (List.last l d).
Proof.
  revert d. induction l as [|x l IH]; intros d; [done|].
  destruct l as [|y l]; [destruct l' as [|z l']; [done|apply (last_default z l')]|].
  change (List.last ((x :: y :: l) ++ l') d) with (List.last ((y :: l) ++ l') d).
  rewrite IH. done.
Qed.

Lemma locks_acked_app prev t1 t2 :
  locks_acked prev (t1 ++ t2) = locks_acked prev t1 && locks_acked (List.last t1 prev) t2.
Proof.
  revert prev. induction t1 as [|op t1 IH]; intros prev; [done|].
  cbn [locks_acked app]. rewrite IH, <- andb_assoc. do 2 f_equal.
  destruct t1 as [|y t1]; [done|]. f_equal. apply (last_default y t1).
Qed.

Lemma locks_acked_no_lock prev t :
  forallb not_lock t = true -> locks_acked prev t = true.
Proof.
  revert prev. induction t as [|op t IH]; intros prev; simpl; [done|].
  intros [Hop Ht]%andb_prop. rewrite IH by done.
  destruct (Op_eq_dec op OpMLockBuffer) as [->|]; [done|done].
Qed.

Lemma acks_locks_refl w : acks_locks w w.
Proof. exists []. by rewrite app_nil_r. Qed.

Lemma acks_locks_trans w1 w2 w3 : acks_locks w1 w2 -> acks_locks w2 w3 -> acks_locks w1 w3.
Proof.
  intros (t1 & H1 & Ha1) (t2 & H2 & Ha2). exists (t1 ++ t2).
  split; [by rewrite H2, H1, <- app_assoc|].
  rewrite locks_acked_app, Ha1. simpl.
  unfold last_call in Ha2. by rewrite H1, last_app_default in Ha2.
Qed.

Lemma acks_locks_extends {A} (m : M A) :
  preserves (extends not_lock) m -> preserves acks_locks m.
Proof.
  intros Hm w. destruct (Hm w) as (t & Ht & Hno). exists t. split; [done|].
  by apply locks_acked_no_lock.
Qed.

(** After the request for the lock, [render_root] asks for no other. *)
Lemma render_root_calls env buf ximg w :
  exists t, trace (world_of (render_root env buf ximg w)) = trace w ++ OpMLockBuffer :: t /\
    forallb not_lock t = true.
Proof.
  unfold render_root.
  assert (Hrest : forall ok, preserves (extends not_lock)
            (if ok : bool then
               let* status := XShmGetImage env ximg in
               let* img := deref ximg in
               let* buf' := fun w =>
                 match copy_ximg_to_buffer_mlocked buf img
                         (default [] (mappings w !! data img)) with
                 | Some (_, buf') => Ret buf' w
                 | None => Crash w
                 end in
               let* ok := invoke env OpMUnlockBuffer in
               if ok : bool then ret (0, buf') else ret (-1, buf')
             else ret (-1, buf))).
  { intros ok. extends_tac.
    all: intros w0; destruct (copy_ximg_to_buffer_mlocked _ _ _) as [[? ?]|];
      apply extends_refl. }
  unfold bind at 1. unfold invoke at 1. cbv beta iota.
  destruct (Hrest (negb (env_fails env OpMLockBuffer (calls OpMLockBuffer w)))
              (log OpMLockBuffer w)) as (t & Ht & Hno).
  exists t. split; [|done]. rewrite Ht. cbn. by rewrite <- app_assoc.
Qed.

Lemma acks_locks_render env buf ximg {B} (k : Z * MBuffer -> M B) :
  (forall a, preserves acks_locks (k a)) ->
  preserves acks_locks
    (let* _ := invoke env OpXDamageSubtract in
     let* a := render_root env buf ximg in k a).
Proof.
  intros Hk w. unfold bind at 1. unfold invoke at 1. cbv beta iota.
  destruct (render_root_calls env buf ximg (log OpXDamageSubtract w)) as (t & Ht & Hno).
  assert (Hpair : acks_locks w (world_of (render_root env buf ximg (log OpXDamageSubtract w)))).
  { exists (OpXDamageSubtract :: OpMLockBuffer :: t). split.
    - rewrite Ht. cbn. by rewrite <- app_assoc.
    - simpl. destruct (Op_eq_dec OpXDamageSubtract OpMLockBuffer) as [?|_]; [done|].
      destruct (Op_eq_dec OpMLockBuffer OpMLockBuffer) as [_|?]; [|done].
      destruct (Op_eq_dec OpXDamageSubtract OpXDamageSubtract) as [_|?]; [|done].
      simpl. by apply locks_acked_no_lock. }
  unfold bind. destruct (render_root env buf ximg (log OpXDamageSubtract w))
    as [a w2|w2|w2|w2]; simpl in *; try done.
  eapply acks_locks_trans; [exact Hpair|apply Hk].
Qed.

(** The calls that are no request for the lock. *)
Ltac quiet_tac :=
  first
    [ solve [extends_tac]
    | solve [eapply preserves_mono; [|apply sync_displays_calls];
             intros ? ?; apply extends_mono; by intros []]
    | solve [unfold resize_shm, xshm_cleanup, xshm_init, cleanup_shm, resize_mbuffer,
               cleanup_1; extends_tac] ].

Ltac acks_tac :=
  repeat first
    [ progress cbv beta zeta
    | apply preserves_ret; apply acks_locks_refl
    | solve [auto]
    | apply acks_locks_render; intros ?
    | apply acks_locks_extends; quiet_tac
    | apply preserves_bind; [apply acks_locks_trans| |intros ?]
    | match goal with
      | |- preserves _ (if ?b then _ else _) => destruct b
      | |- preserves _ (match ?x with _ => _ end) => destruct x
      end ].

Lemma event_loop_acks env fuel : forall l, preserves acks_locks (event_loop env fuel l).
Proof.
  induction fuel as [|fuel IH]; intros l; simpl.
  - intros w. apply acks_locks_refl.
  - acks_tac.
Qed.

Lemma locks_acked_lookup t : forall prev i,
  locks_acked prev t = true -> t !! i = Some OpMLockBuffer ->
  match i with
  | O => prev = OpXDamageSubtract
  | S j => t !! j = Some OpXDamageSubtract
  end.
Proof.
  induction t as [|op t IH]; intros prev i Hacked Hi; [done|].
  cbn [locks_acked] in Hacked. apply andb_prop in Hacked as [Hop Ht].
  destruct i as [|i]; simpl in Hi.
  - injection Hi as ->. destruct (Op_eq_dec OpMLockBuffer OpMLockBuffer); [|done].
    by destruct (Op_eq_dec prev OpXDamageSubtract).
  - specialize (IH op i Ht Hi). destruct i as [|i]; simpl; [by subst|done].
Qed.

(** X21.  In every run of [main], however it ends, each request for the
    lock of the destination buffer comes right after an acknowledgement
    of the damage ([XDamageSubtract]): a frame is rendered only for a
    damage notification, and the damage is acknowledged before the
    render, so that damage arriving during the render is notified
    again. *)
Theorem main_acks_damage_before_lock env fuel w :
  exists t, trace (world_of (main env fuel w)) = trace w ++ t /\
    forall i, t !! i = Some OpMLockBuffer ->
      exists j, i = S j /\ t !! j = Some OpXDamageSubtract.
Proof.
  unfold main. cbv zeta. unfold bind at 1. unfold invoke at 1. cbv beta iota.
  match goal with |- context [world_of (?k (log OpXInitThreads w))] =>
    assert (Hk : preserves acks_locks k)
  end.
  { pose proof (event_loop_acks env fuel) as Hloop. acks_tac. }
  destruct (Hk (log OpXInitThreads w)) as (t & Ht & Hacked).
  exists (OpXInitThreads :: t). split.
  { rewrite Ht. cbn. by rewrite <- app_assoc. }
  assert (Hlast : last_call (log OpXInitThreads w) = OpXInitThreads).
  { unfold last_call. cbn. by rewrite last_app_default. }
  rewrite Hlast in Hacked.
  intros [|i] Hi; [done|]. simpl in Hi. exists i. split; [done|].
  pose proof (locks_acked_lookup t _ _ Hacked Hi) as Hprev.
  destruct i as [|i]; [done|]. exact Hprev.
Qed.
